(** * The authenticated connection handshake of keep-core (package libp2p)

    A shallow embedding of the second Go unit kept in
    [src/pkg/beacon/relay/pedersen/commitment.go] (from its [package libp2p]
    line on): [newAuthenticatedInboundConnection],
    [newAuthenticatedOutboundConnection], the two [runHandshakeAs...]
    drivers, the six send / receive steps and [verify].

    The Go methods mutate their receiver [ac *authenticatedConnection] and the
    [net.Conn] embedded in it, and leave through [return err] at the first
    failure.  They are written here in a state-and-error monad whose state is
    the receiver. *)

From Stdlib Require Import List ZArith Bool Lia.
From Stdlib Require Import Strings.Byte.
Import ListNotations.

Set Implicit Arguments.
Open Scope Z_scope.

(* ================================================================== *)
(** ** Bytes and peer identities *)

Definition bytes := list byte.

(** [peer.ID] is a Go [string]; the conversions [peer.ID(b)] and [[]byte(id)]
    keep the bytes, and [!=] on two identities compares them byte by byte. *)
Definition peer_ID := bytes.

Fixpoint bytes_eqb (a b : bytes) : bool :=
  match a, b with
  | [], [] => true
  | x :: a', y :: b' => Byte.eqb x y && bytes_eqb a' b'
  | _, _ => false
  end.

(* ================================================================== *)
(** ** Errors

    The Go code passes the errors of its collaborators through unchanged and
    builds three of its own with [fmt.Errorf].  One constructor per origin. *)

Inductive error :=
| transport_io                      (* ReadMsg / WriteMsg: the stream failed *)
| frame_oversize                    (* ReadMsg: frame above the reader's cap *)
| malformed_envelope                (* ReadMsg: proto.Unmarshal failed *)
| malformed_identity                (* peer.ID.ExtractPublicKey *)
| crypto_error                      (* PrivKey.Sign *)
| signature_invalid                 (* verifyEnvelope *)
| identity_mismatch (pinned sender : peer_ID)
                                    (* verify: "pinned identity [%v] does not
                                       match sender identity [%v]" *)
| marshal_error                     (* ActNMessage.Marshal *)
| unmarshal_error                   (* ActNMessage.Unmarshal *)
| subprotocol_error                 (* package handshake *)
| handshake_failed (err : error)    (* "connection handshake failed [%v]" *)
| outbound_creation_failed (err : error).
                                    (* "could not create new authenticated
                                       outbound connection [%v]" *)

Inductive result (A : Type) :=
| Ok (a : A)
| Err (e : error).
Arguments Ok {A} a.
Arguments Err {A} e.

Definition is_ok {A} (r : result A) : bool :=
  match r with Ok _ => true | Err _ => false end.

(** Turns the [(value, err)] answer of a collaborator into a result, naming
    the origin of the failure. *)
Definition or_fail {A} (o : option A) (e : error) : result A :=
  match o with Some a => Ok a | None => Err e end.

(* ================================================================== *)
(** ** Envelopes, frames and the transport *)

(** [pb.HandshakeEnvelope]. *)
Record HandshakeEnvelope := {
  Message : bytes;
  PeerID : bytes;
  Signature : bytes
}.

(** One unit of what the remote end delivers: a whole length-delimited frame
    of [encoded_len] bytes whose content either decodes to an envelope or
    does not, or a failure of the byte stream itself. *)
Inductive frame :=
| Frame (encoded_len : Z) (content : option HandshakeEnvelope)
| Broken.

(** What the handshake did, oldest first.  The journal is ghost state: no
    modelled function reads it.  It records the operations on the connection
    (a read with the frame it consumed and what [ReadMsg] returned for it, a
    write with the envelope handed to [WriteMsg] and whether it went through)
    and, besides, the calls of [verifyEnvelope] and the assignments of
    [ac.remotePeerID] made after construction. *)
Inductive event :=
| EvRead (f : frame) (r : result HandshakeEnvelope)
| EvWrite (e : HandshakeEnvelope) (ok : bool)
| EvVerifyEnvelope (sender : peer_ID) (messageBytes signatureBytes : bytes)
| EvPin (id : peer_ID)
| EvClose.

(** [net.Conn] as the handshake uses it.  [incoming] is what the remote end
    delivers, in order; [write_faults] scripts the successive writes ([true]:
    that write fails; a write past the script succeeds). *)
Record net_Conn := {
  incoming : list frame;
  write_faults : list bool;
  journal : list event
}.

Definition record (ev : event) (c : net_Conn) : net_Conn :=
  {| incoming := incoming c;
     write_faults := write_faults c;
     journal := journal c ++ [ev] |}.

(* ================================================================== *)
(** ** Collaborators outside the file *)

(** libp2p keys and identities, and [verifyEnvelope], a function of package
    libp2p declared in another file. *)
Class PeerCrypto := {
  PrivKey : Type;
  PubKey : Type;
  Sign : PrivKey -> bytes -> option bytes;
  ExtractPublicKey : peer_ID -> option PubKey;
  verifyEnvelope : peer_ID -> bytes -> bytes -> bool
}.

(** Package [handshake]: the typed states of both tracks, their transitions
    and the wire form of the three messages. *)
Class Subprotocol := {
  initiatorAct1 : Type;
  initiatorAct2 : Type;
  initiatorAct3 : Type;
  responderAct2 : Type;
  responderAct3 : Type;
  Act1Message : Type;
  Act2Message : Type;
  Act3Message : Type;
  InitiateHandshake : option initiatorAct1;
  initiatorAct1_Message : initiatorAct1 -> Act1Message;
  initiatorAct1_Next : initiatorAct1 -> initiatorAct2;
  initiatorAct2_Next : initiatorAct2 -> Act2Message -> option initiatorAct3;
  initiatorAct3_Message : initiatorAct3 -> Act3Message;
  AnswerHandshake : Act1Message -> option responderAct2;
  responderAct2_Message : responderAct2 -> Act2Message;
  responderAct2_Next : responderAct2 -> responderAct3;
  FinalizeHandshake : responderAct3 -> Act3Message -> bool;
  Act1_Marshal : Act1Message -> option bytes;
  Act2_Marshal : Act2Message -> option bytes;
  Act3_Marshal : Act3Message -> option bytes;
  Act1_Unmarshal : bytes -> option Act1Message;
  Act2_Unmarshal : bytes -> option Act2Message;
  Act3_Unmarshal : bytes -> option Act3Message
}.

(** Enough space for a proto-encoded envelope with a message, peer.ID, and
    sig. *)
Definition maxFrameSize : Z := 1024.

(** [protoio.ReadCloser] and [protoio.WriteCloser] over the connection of the
    receiver. *)
Record ReadCloser := NewDelimitedReader { maxSize : Z }.
Inductive WriteCloser := NewDelimitedWriter.

Section Handshake.

Context {crypto : PeerCrypto} {sub : Subprotocol}.

Record authenticatedConnection := {
  Conn : net_Conn;
  localPeerID : peer_ID;
  localPeerPrivateKey : PrivKey;
  remotePeerID : peer_ID;
  remotePeerPublicKey : option PubKey
}.

Definition with_Conn (c : net_Conn) (ac : authenticatedConnection) :=
  {| Conn := c;
     localPeerID := localPeerID ac;
     localPeerPrivateKey := localPeerPrivateKey ac;
     remotePeerID := remotePeerID ac;
     remotePeerPublicKey := remotePeerPublicKey ac |}.

(* ------------------------------------------------------------------ *)
(** *** The monad of the methods of [*authenticatedConnection] *)

Definition M (A : Type) : Type :=
  authenticatedConnection -> result A * authenticatedConnection.

Definition ret {A} (a : A) : M A := fun ac => (Ok a, ac).

Definition fail {A} (e : error) : M A := fun ac => (Err e, ac).

Definition bind {A B} (m : M A) (k : A -> M B) : M B :=
  fun ac =>
    match m ac with
    | (Ok a, ac') => k a ac'
    | (Err e, ac') => (Err e, ac')
    end.

Definition lift {A} (r : result A) : M A := fun ac => (r, ac).

Definition log (ev : event) : M unit :=
  fun ac => (Ok tt, with_Conn (record ev (Conn ac)) ac).

Notation "x <- m ;; k" := (bind m (fun x => k))
  (at level 61, m at next level, right associativity).
Notation "m ;;; k" := (bind m (fun _ => k))
  (at level 61, right associativity).

(* ------------------------------------------------------------------ *)
(** *** Connection primitives *)

(** Modelled from the spec: the decoding step of [ReadMsg] of the delimited
    reader ([protoio.NewDelimitedReader], which is not part of the sources at
    hand).  Section 4.A: it reads exactly one frame and rejects frames larger
    than the maximum; section 6: the decoder rejects any frame whose total
    encoded length exceeds the cap.  A stream that ends or breaks is an I/O
    error. *)
Definition decode (cap : Z) (f : frame) : result HandshakeEnvelope :=
  match f with
  | Broken => Err transport_io
  | Frame n content =>
      if n >? cap then Err frame_oversize
      else or_fail content malformed_envelope
  end.

(** [ReadMsg]: takes the next frame off the stream (an exhausted stream
    reads as broken) and decodes it under the cap of the reader. *)
Definition ReadMsg (r : ReadCloser) : M HandshakeEnvelope :=
  fun ac =>
    let c := Conn ac in
    let f := hd Broken (incoming c) in
    let res := decode (maxSize r) f in
    let c' := record (EvRead f res)
                {| incoming := tl (incoming c);
                   write_faults := write_faults c;
                   journal := journal c |} in
    (res, with_Conn c' ac).

(** [WriteMsg] of the delimited writer: one frame for the envelope, or an
    error of the stream. *)
Definition WriteMsg (w : WriteCloser) (e : HandshakeEnvelope) : M unit :=
  fun ac =>
    let c := Conn ac in
    let faulty := hd false (write_faults c) in
    let c' := record (EvWrite e (negb faulty))
                {| incoming := incoming c;
                   write_faults := tl (write_faults c);
                   journal := journal c |} in
    (if faulty then Err transport_io else Ok tt, with_Conn c' ac).

(** [ac.Close()], promoted from the embedded [net.Conn]; its error is
    dropped by both callers. *)
Definition Close : M unit := log EvClose.

(* ------------------------------------------------------------------ *)
(** *** verify *)

(** verify checks to see if the pinned (static) identity matches the message
    sender's identity before running through the signature verification
    check. *)
Definition verify (pinned sender : peer_ID)
    (messageBytes signatureBytes : bytes) : M unit :=
  if negb (bytes_eqb pinned sender) then
    fail (identity_mismatch pinned sender)
  else
    log (EvVerifyEnvelope sender messageBytes signatureBytes) ;;;
    if verifyEnvelope sender messageBytes signatureBytes then ret tt
    else fail signature_invalid.

(* ------------------------------------------------------------------ *)
(** *** Initiator steps *)

Definition initiatorSendAct1 (act1WireMessage : bytes)
    (initiatorConnectionWriter : WriteCloser) : M unit :=
  fun ac =>
    (signedAct1Message <-
       lift (or_fail (Sign (localPeerPrivateKey ac) act1WireMessage)
               crypto_error) ;;
     let act1Envelope :=
       {| Message := act1WireMessage;
          PeerID := localPeerID ac;
          Signature := signedAct1Message |} in
     WriteMsg initiatorConnectionWriter act1Envelope) ac.

Definition initiatorReceiveAct2 (initiatorConnectionReader : ReadCloser)
    : M Act2Message :=
  act2Envelope <- ReadMsg initiatorConnectionReader ;;
  (fun ac =>
     verify (remotePeerID ac) (PeerID act2Envelope)
       (Message act2Envelope) (Signature act2Envelope) ac) ;;;
  lift (or_fail (Act2_Unmarshal (Message act2Envelope)) unmarshal_error).

Definition initiatorSendAct3 (act3WireMessage : bytes)
    (initiatorConnectionWriter : WriteCloser) : M unit :=
  fun ac =>
    (signedAct3Message <-
       lift (or_fail (Sign (localPeerPrivateKey ac) act3WireMessage)
               crypto_error) ;;
     let act3Envelope :=
       {| Message := act3WireMessage;
          PeerID := localPeerID ac;
          Signature := signedAct3Message |} in
     WriteMsg initiatorConnectionWriter act3Envelope) ac.

Definition runHandshakeAsInitiator : M unit :=
  (* initiator station *)
  let initiatorConnectionReader := NewDelimitedReader maxFrameSize in
  let initiatorConnectionWriter := NewDelimitedWriter in
  (* Act 1 *)
  initiatorAct1 <- lift (or_fail InitiateHandshake subprotocol_error) ;;
  act1WireMessage <-
    lift (or_fail (Act1_Marshal (initiatorAct1_Message initiatorAct1))
            marshal_error) ;;
  initiatorSendAct1 act1WireMessage initiatorConnectionWriter ;;;
  let initiatorAct2 := initiatorAct1_Next initiatorAct1 in
  (* Act 2 *)
  act2Message <- initiatorReceiveAct2 initiatorConnectionReader ;;
  initiatorAct3 <-
    lift (or_fail (initiatorAct2_Next initiatorAct2 act2Message)
            subprotocol_error) ;;
  (* Act 3 *)
  act3WireMessage <-
    lift (or_fail (Act3_Marshal (initiatorAct3_Message initiatorAct3))
            marshal_error) ;;
  initiatorSendAct3 act3WireMessage initiatorConnectionWriter.

(* ------------------------------------------------------------------ *)
(** *** Responder steps *)

Definition set_remotePeerID (id : peer_ID) : M unit :=
  fun ac =>
    log (EvPin id)
      {| Conn := Conn ac;
         localPeerID := localPeerID ac;
         localPeerPrivateKey := localPeerPrivateKey ac;
         remotePeerID := id;
         remotePeerPublicKey := remotePeerPublicKey ac |}.

Definition responderReceiveAct1 (responderConnectionReader : ReadCloser)
    : M Act1Message :=
  act1Envelope <- ReadMsg responderConnectionReader ;;
  (* we want to pin this identity for the duration of the connection *)
  set_remotePeerID (PeerID act1Envelope) ;;;
  (fun ac =>
     verify (remotePeerID ac) (PeerID act1Envelope)
       (Message act1Envelope) (Signature act1Envelope) ac) ;;;
  lift (or_fail (Act1_Unmarshal (Message act1Envelope)) unmarshal_error).

Definition responderSendAct2 (act2WireMessage : bytes)
    (responderConnectionWriter : WriteCloser) : M unit :=
  fun ac =>
    (signedAct2Message <-
       lift (or_fail (Sign (localPeerPrivateKey ac) act2WireMessage)
               crypto_error) ;;
     let act2Envelope :=
       {| Message := act2WireMessage;
          PeerID := localPeerID ac;
          Signature := signedAct2Message |} in
     WriteMsg responderConnectionWriter act2Envelope) ac.

Definition responderReceiveAct3 (responderConnectionReader : ReadCloser)
    : M Act3Message :=
  act3Envelope <- ReadMsg responderConnectionReader ;;
  (fun ac =>
     verify (remotePeerID ac) (PeerID act3Envelope)
       (Message act3Envelope) (Signature act3Envelope) ac) ;;;
  lift (or_fail (Act3_Unmarshal (Message act3Envelope)) unmarshal_error).

Definition runHandshakeAsResponder : M unit :=
  (* responder station *)
  let responderConnectionReader := NewDelimitedReader maxFrameSize in
  let responderConnectionWriter := NewDelimitedWriter in
  (* Act 1 *)
  act1Message <- responderReceiveAct1 responderConnectionReader ;;
  responderAct2 <-
    lift (or_fail (AnswerHandshake act1Message) subprotocol_error) ;;
  (* Act 2 *)
  act2WireMessage <-
    lift (or_fail (Act2_Marshal (responderAct2_Message responderAct2))
            marshal_error) ;;
  responderSendAct2 act2WireMessage responderConnectionWriter ;;;
  let responderAct3 := responderAct2_Next responderAct2 in
  (* Act 3 *)
  act3Message <- responderReceiveAct3 responderConnectionReader ;;
  if FinalizeHandshake responderAct3 act3Message then ret tt
  else fail subprotocol_error.

(* ------------------------------------------------------------------ *)
(** *** The two constructors

    Each returns the Go pair of a connection pointer and an error as a result,
    next to the connection the caller handed in, as the call left it. *)

Definition newAuthenticatedInboundConnection
    (unauthenticatedConn : net_Conn) (localPeerID : peer_ID)
    (privateKey : PrivKey) (remotePeerID : peer_ID)
    : result authenticatedConnection * net_Conn :=
  let ac := {| Conn := unauthenticatedConn;
               localPeerID := localPeerID;
               localPeerPrivateKey := privateKey;
               remotePeerID := [];
               remotePeerPublicKey := None |} in
  match runHandshakeAsResponder ac with
  | (Err err, ac1) =>
      (* close the conn before returning (if it hasn't already)
         otherwise we leak. *)
      let ac2 := snd (Close ac1) in
      (Err (handshake_failed err), Conn ac2)
  | (Ok _, ac1) => (Ok ac1, Conn ac1)
  end.

Definition newAuthenticatedOutboundConnection
    (unauthenticatedConn : net_Conn) (localPeerID : peer_ID)
    (privateKey : PrivKey) (remotePeerID : peer_ID)
    : result authenticatedConnection * net_Conn :=
  match ExtractPublicKey remotePeerID with
  | None =>
      (Err (outbound_creation_failed malformed_identity),
       unauthenticatedConn)
  | Some remotePublicKey =>
      let ac := {| Conn := unauthenticatedConn;
                   localPeerID := localPeerID;
                   localPeerPrivateKey := privateKey;
                   remotePeerID := remotePeerID;
                   remotePeerPublicKey := Some remotePublicKey |} in
      match runHandshakeAsInitiator ac with
      | (Err err, ac1) =>
          let ac2 := snd (Close ac1) in
          (Err (handshake_failed err), Conn ac2)
      | (Ok _, ac1) => (Ok ac1, Conn ac1)
      end
  end.

End Handshake.

(* ================================================================== *)
(** ** Reading a journal *)

(** The events a call added: what the journal of [c'] holds beyond the one
    of [c]. *)
Definition since (c c' : net_Conn) : list event :=
  skipn (length (journal c)) (journal c').

(** The envelopes handed to [WriteMsg], in order. *)
Fixpoint written (tr : list event) : list HandshakeEnvelope :=
  match tr with
  | [] => []
  | EvWrite e _ :: tr' => e :: written tr'
  | _ :: tr' => written tr'
  end.

(** The envelopes [ReadMsg] returned, in order. *)
Fixpoint received (tr : list event) : list HandshakeEnvelope :=
  match tr with
  | [] => []
  | EvRead _ (Ok e) :: tr' => e :: received tr'
  | _ :: tr' => received tr'
  end.

(** The values assigned to [ac.remotePeerID], in order. *)
Fixpoint pins (tr : list event) : list peer_ID :=
  match tr with
  | [] => []
  | EvPin id :: tr' => id :: pins tr'
  | _ :: tr' => pins tr'
  end.

(** The calls of [verifyEnvelope], in order. *)
Fixpoint verified (tr : list event) : list (peer_ID * bytes * bytes) :=
  match tr with
  | [] => []
  | EvVerifyEnvelope p m s :: tr' => (p, m, s) :: verified tr'
  | _ :: tr' => verified tr'
  end.

(** The number of calls of [Close]. *)
Fixpoint closes (tr : list event) : nat :=
  match tr with
  | [] => O
  | EvClose :: tr' => S (closes tr')
  | _ :: tr' => closes tr'
  end.

(** The events that precede the first call of [WriteMsg]. *)
Fixpoint before_first_write (tr : list event) : list event :=
  match tr with
  | [] => []
  | EvWrite _ _ :: _ => []
  | ev :: tr' => ev :: before_first_write tr'
  end.


(* ================================================================== *)
(** ** The paths through the two drivers

    Every run of a driver leaves on one of thirteen paths, one per [return].
    A path is told by the result and by the events added to the journal. *)

Section Paths.

Context {crypto : PeerCrypto} {sub : Subprotocol}.

Variable ac : authenticatedConnection.

(** The envelope every send step builds from a wire message and its
    signature. *)
Definition envelope_of (w s : bytes) : HandshakeEnvelope :=
  {| Message := w; PeerID := localPeerID ac; Signature := s |}.

(** The frames met by the first and by the second read of a run, and the
    faults met by its first and second write. *)
Definition frame1 : frame := hd Broken (incoming (Conn ac)).
Definition frame2 : frame := hd Broken (tl (incoming (Conn ac))).
Definition fault1 : bool := hd false (write_faults (Conn ac)).
Definition fault2 : bool := hd false (tl (write_faults (Conn ac))).

Definition EvVerify (e : HandshakeEnvelope) : event :=
  EvVerifyEnvelope (PeerID e) (Message e) (Signature e).

(** The initiator has built and signed Act 1: state, wire message and
    signature. *)
Definition act1_signed (st1 : initiatorAct1) (w1 s1 : bytes) : Prop :=
  InitiateHandshake = Some st1 /\
  Act1_Marshal (initiatorAct1_Message st1) = Some w1 /\
  Sign (localPeerPrivateKey ac) w1 = Some s1.

(** The initiator has read the envelope [e2] and [verify] has passed it. *)
Definition act2_verified (e2 : HandshakeEnvelope) : Prop :=
  decode maxFrameSize frame1 = Ok e2 /\
  remotePeerID ac = PeerID e2 /\
  verifyEnvelope (PeerID e2) (Message e2) (Signature e2) = true.

(** The sub-protocol has accepted the Act 2 message of [e2] and moved to
    [st3]. *)
Definition act2_accepted (st1 : initiatorAct1) (e2 : HandshakeEnvelope)
    (st3 : initiatorAct3) : Prop :=
  act2_verified e2 /\
  exists m2, Act2_Unmarshal (Message e2) = Some m2 /\
             initiatorAct2_Next (initiatorAct1_Next st1) m2 = Some st3.

Inductive initiator_path : result unit -> list event -> Prop :=
| I_no_initiate :
    InitiateHandshake = None ->
    initiator_path (Err subprotocol_error) []
| I_no_marshal1 st1 :
    InitiateHandshake = Some st1 ->
    Act1_Marshal (initiatorAct1_Message st1) = None ->
    initiator_path (Err marshal_error) []
| I_no_sign1 st1 w1 :
    InitiateHandshake = Some st1 ->
    Act1_Marshal (initiatorAct1_Message st1) = Some w1 ->
    Sign (localPeerPrivateKey ac) w1 = None ->
    initiator_path (Err crypto_error) []
| I_write1_fails st1 w1 s1 :
    act1_signed st1 w1 s1 -> fault1 = true ->
    initiator_path (Err transport_io) [EvWrite (envelope_of w1 s1) false]
| I_read2_fails st1 w1 s1 err :
    act1_signed st1 w1 s1 -> fault1 = false ->
    decode maxFrameSize frame1 = Err err ->
    initiator_path (Err err)
      [EvWrite (envelope_of w1 s1) true; EvRead frame1 (Err err)]
| I_mismatch st1 w1 s1 e2 :
    act1_signed st1 w1 s1 -> fault1 = false ->
    decode maxFrameSize frame1 = Ok e2 ->
    remotePeerID ac <> PeerID e2 ->
    initiator_path (Err (identity_mismatch (remotePeerID ac) (PeerID e2)))
      [EvWrite (envelope_of w1 s1) true; EvRead frame1 (Ok e2)]
| I_bad_signature2 st1 w1 s1 e2 :
    act1_signed st1 w1 s1 -> fault1 = false ->
    decode maxFrameSize frame1 = Ok e2 ->
    remotePeerID ac = PeerID e2 ->
    verifyEnvelope (PeerID e2) (Message e2) (Signature e2) = false ->
    initiator_path (Err signature_invalid)
      [EvWrite (envelope_of w1 s1) true; EvRead frame1 (Ok e2); EvVerify e2]
| I_no_unmarshal2 st1 w1 s1 e2 :
    act1_signed st1 w1 s1 -> fault1 = false ->
    act2_verified e2 ->
    Act2_Unmarshal (Message e2) = None ->
    initiator_path (Err unmarshal_error)
      [EvWrite (envelope_of w1 s1) true; EvRead frame1 (Ok e2); EvVerify e2]
| I_rejected st1 w1 s1 e2 m2 :
    act1_signed st1 w1 s1 -> fault1 = false ->
    act2_verified e2 ->
    Act2_Unmarshal (Message e2) = Some m2 ->
    initiatorAct2_Next (initiatorAct1_Next st1) m2 = None ->
    initiator_path (Err subprotocol_error)
      [EvWrite (envelope_of w1 s1) true; EvRead frame1 (Ok e2); EvVerify e2]
| I_no_marshal3 st1 w1 s1 e2 st3 :
    act1_signed st1 w1 s1 -> fault1 = false ->
    act2_accepted st1 e2 st3 ->
    Act3_Marshal (initiatorAct3_Message st3) = None ->
    initiator_path (Err marshal_error)
      [EvWrite (envelope_of w1 s1) true; EvRead frame1 (Ok e2); EvVerify e2]
| I_no_sign3 st1 w1 s1 e2 st3 w3 :
    act1_signed st1 w1 s1 -> fault1 = false ->
    act2_accepted st1 e2 st3 ->
    Act3_Marshal (initiatorAct3_Message st3) = Some w3 ->
    Sign (localPeerPrivateKey ac) w3 = None ->
    initiator_path (Err crypto_error)
      [EvWrite (envelope_of w1 s1) true; EvRead frame1 (Ok e2); EvVerify e2]
| I_write3_fails st1 w1 s1 e2 st3 w3 s3 :
    act1_signed st1 w1 s1 -> fault1 = false ->
    act2_accepted st1 e2 st3 ->
    Act3_Marshal (initiatorAct3_Message st3) = Some w3 ->
    Sign (localPeerPrivateKey ac) w3 = Some s3 ->
    fault2 = true ->
    initiator_path (Err transport_io)
      [EvWrite (envelope_of w1 s1) true; EvRead frame1 (Ok e2); EvVerify e2;
       EvWrite (envelope_of w3 s3) false]
| I_done st1 w1 s1 e2 st3 w3 s3 :
    act1_signed st1 w1 s1 -> fault1 = false ->
    act2_accepted st1 e2 st3 ->
    Act3_Marshal (initiatorAct3_Message st3) = Some w3 ->
    Sign (localPeerPrivateKey ac) w3 = Some s3 ->
    fault2 = false ->
    initiator_path (Ok tt)
      [EvWrite (envelope_of w1 s1) true; EvRead frame1 (Ok e2); EvVerify e2;
       EvWrite (envelope_of w3 s3) true].

(** The responder has read the envelope [e1], adopted its [PeerID] and had
    its signature checked; the sub-protocol has taken the Act 1 message and
    moved to [st2]. *)
Definition act1_accepted (e1 : HandshakeEnvelope) (st2 : responderAct2)
    : Prop :=
  decode maxFrameSize frame1 = Ok e1 /\
  verifyEnvelope (PeerID e1) (Message e1) (Signature e1) = true /\
  exists m1, Act1_Unmarshal (Message e1) = Some m1 /\
             AnswerHandshake m1 = Some st2.

(** The responder has built, signed and written Act 2. *)
Definition act2_sent (st2 : responderAct2) (w2 s2 : bytes) : Prop :=
  Act2_Marshal (responderAct2_Message st2) = Some w2 /\
  Sign (localPeerPrivateKey ac) w2 = Some s2 /\
  fault1 = false.

Inductive responder_path : result unit -> list event -> Prop :=
| R_read1_fails err :
    decode maxFrameSize frame1 = Err err ->
    responder_path (Err err) [EvRead frame1 (Err err)]
| R_bad_signature1 e1 :
    decode maxFrameSize frame1 = Ok e1 ->
    verifyEnvelope (PeerID e1) (Message e1) (Signature e1) = false ->
    responder_path (Err signature_invalid)
      [EvRead frame1 (Ok e1); EvPin (PeerID e1); EvVerify e1]
| R_no_unmarshal1 e1 :
    decode maxFrameSize frame1 = Ok e1 ->
    verifyEnvelope (PeerID e1) (Message e1) (Signature e1) = true ->
    Act1_Unmarshal (Message e1) = None ->
    responder_path (Err unmarshal_error)
      [EvRead frame1 (Ok e1); EvPin (PeerID e1); EvVerify e1]
| R_refused e1 m1 :
    decode maxFrameSize frame1 = Ok e1 ->
    verifyEnvelope (PeerID e1) (Message e1) (Signature e1) = true ->
    Act1_Unmarshal (Message e1) = Some m1 ->
    AnswerHandshake m1 = None ->
    responder_path (Err subprotocol_error)
      [EvRead frame1 (Ok e1); EvPin (PeerID e1); EvVerify e1]
| R_no_marshal2 e1 st2 :
    act1_accepted e1 st2 ->
    Act2_Marshal (responderAct2_Message st2) = None ->
    responder_path (Err marshal_error)
      [EvRead frame1 (Ok e1); EvPin (PeerID e1); EvVerify e1]
| R_no_sign2 e1 st2 w2 :
    act1_accepted e1 st2 ->
    Act2_Marshal (responderAct2_Message st2) = Some w2 ->
    Sign (localPeerPrivateKey ac) w2 = None ->
    responder_path (Err crypto_error)
      [EvRead frame1 (Ok e1); EvPin (PeerID e1); EvVerify e1]
| R_write2_fails e1 st2 w2 s2 :
    act1_accepted e1 st2 ->
    Act2_Marshal (responderAct2_Message st2) = Some w2 ->
    Sign (localPeerPrivateKey ac) w2 = Some s2 ->
    fault1 = true ->
    responder_path (Err transport_io)
      [EvRead frame1 (Ok e1); EvPin (PeerID e1); EvVerify e1;
       EvWrite (envelope_of w2 s2) false]
| R_read3_fails e1 st2 w2 s2 err :
    act1_accepted e1 st2 -> act2_sent st2 w2 s2 ->
    decode maxFrameSize frame2 = Err err ->
    responder_path (Err err)
      [EvRead frame1 (Ok e1); EvPin (PeerID e1); EvVerify e1;
       EvWrite (envelope_of w2 s2) true; EvRead frame2 (Err err)]
| R_mismatch e1 st2 w2 s2 e3 :
    act1_accepted e1 st2 -> act2_sent st2 w2 s2 ->
    decode maxFrameSize frame2 = Ok e3 ->
    PeerID e1 <> PeerID e3 ->
    responder_path (Err (identity_mismatch (PeerID e1) (PeerID e3)))
      [EvRead frame1 (Ok e1); EvPin (PeerID e1); EvVerify e1;
       EvWrite (envelope_of w2 s2) true; EvRead frame2 (Ok e3)]
| R_bad_signature3 e1 st2 w2 s2 e3 :
    act1_accepted e1 st2 -> act2_sent st2 w2 s2 ->
    decode maxFrameSize frame2 = Ok e3 ->
    PeerID e1 = PeerID e3 ->
    verifyEnvelope (PeerID e3) (Message e3) (Signature e3) = false ->
    responder_path (Err signature_invalid)
      [EvRead frame1 (Ok e1); EvPin (PeerID e1); EvVerify e1;
       EvWrite (envelope_of w2 s2) true; EvRead frame2 (Ok e3); EvVerify e3]
| R_no_unmarshal3 e1 st2 w2 s2 e3 :
    act1_accepted e1 st2 -> act2_sent st2 w2 s2 ->
    decode maxFrameSize frame2 = Ok e3 ->
    PeerID e1 = PeerID e3 ->
    verifyEnvelope (PeerID e3) (Message e3) (Signature e3) = true ->
    Act3_Unmarshal (Message e3) = None ->
    responder_path (Err unmarshal_error)
      [EvRead frame1 (Ok e1); EvPin (PeerID e1); EvVerify e1;
       EvWrite (envelope_of w2 s2) true; EvRead frame2 (Ok e3); EvVerify e3]
| R_not_finalized e1 st2 w2 s2 e3 m3 :
    act1_accepted e1 st2 -> act2_sent st2 w2 s2 ->
    decode maxFrameSize frame2 = Ok e3 ->
    PeerID e1 = PeerID e3 ->
    verifyEnvelope (PeerID e3) (Message e3) (Signature e3) = true ->
    Act3_Unmarshal (Message e3) = Some m3 ->
    FinalizeHandshake (responderAct2_Next st2) m3 = false ->
    responder_path (Err subprotocol_error)
      [EvRead frame1 (Ok e1); EvPin (PeerID e1); EvVerify e1;
       EvWrite (envelope_of w2 s2) true; EvRead frame2 (Ok e3); EvVerify e3]
| R_done e1 st2 w2 s2 e3 m3 :
    act1_accepted e1 st2 -> act2_sent st2 w2 s2 ->
    decode maxFrameSize frame2 = Ok e3 ->
    PeerID e1 = PeerID e3 ->
    verifyEnvelope (PeerID e3) (Message e3) (Signature e3) = true ->
    Act3_Unmarshal (Message e3) = Some m3 ->
    FinalizeHandshake (responderAct2_Next st2) m3 = true ->
    responder_path (Ok tt)
      [EvRead frame1 (Ok e1); EvPin (PeerID e1); EvVerify e1;
       EvWrite (envelope_of w2 s2) true; EvRead frame2 (Ok e3); EvVerify e3].

End Paths.

(* ================================================================== *)
(** ** An exchange between two honest peers *)

Section Exchange.

Context {crypto : PeerCrypto} {sub : Subprotocol}.


End Exchange.

(* ================================================================== *)
(** ** A small instance of the collaborators

    Used to run the handshake on concrete connections.  An identity is its
    own key, the empty identity carries none, a signature is the key followed
    by the message, and the key agreement echoes a one-byte challenge. *)

Module Echo.

Definition crypto : PeerCrypto :=
  {| PrivKey := bytes;
     PubKey := bytes;
     Sign := fun sk m => Some (sk ++ m);
     ExtractPublicKey := fun id =>
       match id with [] => None | _ :: _ => Some id end;
     verifyEnvelope := fun sender m s => bytes_eqb s (sender ++ m) |}.

Definition sub : Subprotocol :=
  {| initiatorAct1 := bytes;
     initiatorAct2 := bytes;
     initiatorAct3 := bytes;
     responderAct2 := bytes;
     responderAct3 := bytes;
     Act1Message := bytes;
     Act2Message := bytes;
     Act3Message := bytes;
     InitiateHandshake := Some [x07];
     initiatorAct1_Message := fun st => st;
     initiatorAct1_Next := fun st => st;
     initiatorAct2_Next := fun st m =>
       if bytes_eqb st m then Some m else None;
     initiatorAct3_Message := fun st => st;
     AnswerHandshake := fun m => Some m;
     responderAct2_Message := fun st => st;
     responderAct2_Next := fun st => st;
     FinalizeHandshake := fun st m => bytes_eqb st m;
     Act1_Marshal := fun m => Some m;
     Act2_Marshal := fun m => Some m;
     Act3_Marshal := fun m => Some m;
     Act1_Unmarshal := fun b => Some b;
     Act2_Unmarshal := fun b => Some b;
     Act3_Unmarshal := fun b => Some b |}.

Definition alice : peer_ID := [x41].
Definition bob : peer_ID := [x42].
Definition carol : peer_ID := [x43].

(** The envelope an honest holder of [id] sends for the message [m]. *)
Definition signed (id : peer_ID) (m : bytes) : HandshakeEnvelope :=
  {| Message := m; PeerID := id; Signature := id ++ m |}.

(** A fresh connection on which the remote end delivers [fs]. *)
Definition fresh (fs : list frame) : net_Conn :=
  {| incoming := fs; write_faults := []; journal := [] |}.

(** The receiver of a method call, before any handshake step. *)
Definition station (c : net_Conn) (lid rid : peer_ID)
    : @authenticatedConnection crypto :=
  @Build_authenticatedConnection crypto c lid lid rid None.

Definition outbound (c : net_Conn) (lid rid : peer_ID) :=
  @newAuthenticatedOutboundConnection crypto sub c lid lid rid.

Definition inbound (c : net_Conn) (lid : peer_ID) :=
  @newAuthenticatedInboundConnection crypto sub c lid lid [].

(** The challenge of [InitiateHandshake], and frames that carry it. *)
Definition challenge : bytes := [x07].

Definition from (id : peer_ID) : frame := Frame 9 (Some (signed id challenge)).

(** An envelope with an empty [PeerID]. *)
Definition anonymous : HandshakeEnvelope := signed [] challenge.

(** A frame one byte above the cap. *)
Definition oversize : frame := Frame 1025 (Some (signed alice challenge)).

(** Alice dials Bob and Bob answers. *)
Definition alice_dials_bob : @authenticatedConnection crypto :=
  @Build_authenticatedConnection crypto (fresh [from bob]) alice alice bob
    (Some bob).

(** Bob is dialled by Alice. *)
Definition bob_listens : @authenticatedConnection crypto :=
  station (fresh [from alice; from alice]) bob [].

(** Bob, holding a stale remote identity, is dialled by a peer that sends an
    empty identity. *)
Definition bob_meets_anonymous : @authenticatedConnection crypto :=
  station (fresh [Frame 9 (Some anonymous)]) bob carol.

(** Connections on which Carol answers in place of Bob, on which the dialling
    peer changes its identity between Act 1 and Act 3, and on which the first
    frame is above the cap. *)
Definition carol_answers : net_Conn := fresh [from carol].
Definition alice_then_carol : net_Conn := fresh [from alice; from carol].
Definition too_long : net_Conn := fresh [oversize].

(** The connections both ends are left with after a handshake that
    succeeds. *)
Definition alice_upgraded : @authenticatedConnection crypto :=
  match fst (outbound (fresh [from bob]) alice bob) with
  | Ok ac => ac
  | Err _ => alice_dials_bob
  end.

Definition bob_upgraded : @authenticatedConnection crypto :=
  match fst (inbound (fresh [from alice; from alice]) bob) with
  | Ok ac => ac
  | Err _ => bob_listens
  end.

(** An envelope that names Bob and carries no signature of his, and a
    connection that delivers it. *)
Definition forged : HandshakeEnvelope :=
  {| Message := challenge; PeerID := bob; Signature := [] |}.

Definition forger_answers : net_Conn := fresh [Frame 9 (Some forged)].


End Echo.

(* ================================================================== *)
(** ** Package pedersen

    The first Go unit of [commitment.go]: the parameters of the commitment
    scheme, [NewVSS], [CommitmentTo], [Verify], [calculateDigest],
    [CalculateCommitment] and [randomFromZn].  A [*big.Int] is a [Z]; no
    function of the package changes one in place after it has built it. *)

Module Pedersen.

Inductive error :=
| not_primes                        (* "p and q have to be primes" *)
| incorrect_p_q                     (* "incorrect p and q values" *)
| reader_failed                     (* the error of crand.Int *)
| random_failed (err : error)       (* "failed to generate random number
                                       [%s]" *)
| g_generation_failed (err : error) (* "g generation failed [%s]" *)
| randomValue_generation_failed (err : error)
                                    (* "randomValue generation failed [%s]" *)
| r_generation_failed (err : error).
                                    (* "r generation failed [%s]" *)

(** How a call ends: with a value, with a Go error, or in a panic of
    math/big or crypto/rand.  [Unspecified] stands for the one case this
    model does not decide, [Exp] on a negative exponent under a modulus,
    whose value is not the same in all Go releases. *)
Inductive outcome (A : Type) :=
| Returns (a : A)
| Fails (e : error)
| Panics
| Unspecified.
Arguments Returns {A} a.
Arguments Fails {A} e.
Arguments Panics {A}.
Arguments Unspecified {A}.

(** Goes on with the value of a call that returned. *)
Definition and_then {A B} (o : outcome A) (k : A -> outcome B) : outcome B :=
  match o with
  | Returns a => k a
  | Fails e => Fails e
  | Panics => Panics
  | Unspecified => Unspecified
  end.

(* ------------------------------------------------------------------ *)
(** *** math/big *)

(** [z.Mod(x, y)]: the Euclidean modulus; a run-time panic for [y = 0]. *)
Definition big_Mod (x y : Z) : outcome Z :=
  if y =? 0 then Panics else Returns (x mod Z.abs y).

(** [z.Div(x, y)]: the Euclidean quotient; a run-time panic for [y = 0]. *)
Definition big_Div (x y : Z) : outcome Z :=
  if y =? 0 then Panics else Returns (Z.sgn y * (x / Z.abs y)).

(** [z.Exp(x, y, m)], with [None] for a nil modulus: [x**y mod |m|]; without
    a modulus ([m] nil or zero) [x**y], and 1 when [y <= 0]. *)
Definition big_Exp (x y : Z) (m : option Z) : outcome Z :=
  match m with
  | Some (Zpos _ as n) | Some (Zneg _ as n) =>
      if y <? 0 then Unspecified else Returns ((x ^ y) mod Z.abs n)
  | Some Z0 | None =>
      Returns (if y <=? 0 then 1 else x ^ y)
  end.

(* ------------------------------------------------------------------ *)
(** *** Collaborators and randomness *)

(** [ProbablyPrime] of [big.Int] and [byteutils.Sha256Sum], the digest read
    as an integer. *)
Class Primitives := {
  ProbablyPrime : Z -> Z -> bool;
  Sha256Sum : bytes -> Z
}.

(** A function of the package runs against what [crand.Reader] will yield:
    a tape of integers, one per call of [crand.Int], which returns the
    integer it takes reduced modulo its bound, so that every value below the
    bound can come; a tape that has run out is a reader that fails. *)
Definition R (A : Type) : Type := list Z -> outcome A * list Z.

Definition ret {A} (a : A) : R A := fun tape => (Returns a, tape).

Definition fail {A} (e : error) : R A := fun tape => (Fails e, tape).

Definition lift {A} (o : outcome A) : R A := fun tape => (o, tape).

Definition bind {A B} (m : R A) (k : A -> R B) : R B :=
  fun tape =>
    match m tape with
    | (Returns a, tape') => k a tape'
    | (Fails e, tape') => (Fails e, tape')
    | (Panics, tape') => (Panics, tape')
    | (Unspecified, tape') => (Unspecified, tape')
    end.

(** [if err != nil { return ..., fmt.Errorf("... [%s]", err) }]. *)
Definition wrap {A} (w : error -> error) (m : R A) : R A :=
  fun tape =>
    match m tape with
    | (Fails e, tape') => (Fails (w e), tape')
    | other => other
    end.

Notation "x <- m ;; k" := (bind m (fun x => k))
  (at level 61, m at next level, right associativity).

(** [crand.Int(crand.Reader, max)]: a value from 0 up to [max - 1]; it
    panics if [max <= 0]. *)
Definition crand_Int (max : Z) : R Z :=
  fun tape =>
    if max <=? 0 then (Panics, tape)
    else match tape with
         | [] => (Fails reader_failed, [])
         | v :: rest => (Returns (v mod max), rest)
         end.

(* ------------------------------------------------------------------ *)
(** *** The package *)

(** VSS scheme parameters. *)
Record VSS := {
  p : Z;
  q : Z;
  g : Z;
  h : Z
}.

Record Commitment := {
  vss : VSS;
  commitment : Z
}.

Record DecommitmentKey := {
  t : Z
}.

(** The loop of [randomFromZn]: draw until the value is not zero.  A draw
    takes one integer off the tape, so the loop goes down the tape. *)
Fixpoint randomFromZn_loop (max : Z) (tape : list Z) {struct tape}
    : outcome Z * list Z :=
  match tape with
  | [] => wrap random_failed (crand_Int max) []
  | v :: rest =>
      match crand_Int max (v :: rest) with
      | (Returns x, tape') =>
          if Z.sgn x =? 0 then randomFromZn_loop max rest
          else (Returns x, tape')
      | (Fails err, tape') => (Fails (random_failed err), tape')
      | other => other
      end
  end.

(** randomFromZn generates a random [big.Int]; [x] starts at zero, so the
    loop is entered. *)
Definition randomFromZn (n : Z) : R Z :=
  let max := n - 1 in
  randomFromZn_loop max.

(** CalculateCommitment calculates a commitment with equation
    [(g ^ s) * (h ^ r) mod p]. *)
Definition CalculateCommitment (vss : VSS) (digest r : Z) : outcome Z :=
  and_then (big_Exp (g vss) digest (Some (p vss))) (fun gs =>
  and_then (big_Exp (h vss) r (Some (p vss))) (fun hr =>
  big_Mod (gs * hr) (p vss))).

Section WithPrimitives.

Context {prim : Primitives}.

(** NewVSS generates parameters for a scheme execution. *)
Definition NewVSS (p q : Z) : R VSS :=
  if negb (ProbablyPrime p 20) || negb (ProbablyPrime q 20) then
    fail not_primes
  else
    (* We need to check that q^2 does not divide p - 1. *)
    q2 <- lift (big_Exp q 2 None) ;;
    modulus <- lift (big_Mod (p - 1) q2) ;;
    if modulus =? 0 then fail incorrect_p_q
    else
      (* Generate random g *)
      randomG <- wrap g_generation_failed (randomFromZn p) ;;
      g <- lift (big_Exp randomG 2 None) ;;
      (* h = r^k mod p where k = (p - 1) / q *)
      randomValue <- wrap randomValue_generation_failed (randomFromZn p) ;;
      k <- lift (big_Div (p - 1) q) ;;
      h <- lift (big_Exp randomValue k (Some p)) ;;
      ret {| p := p; q := q; g := g; h := h |}.

Definition calculateDigest (secret : bytes) (mod_ : Z) : outcome Z :=
  let hash := Sha256Sum secret in
  big_Mod hash mod_.

(** CommitmentTo takes a secret message and a set of parameters and returns
    a commitment to that message and the associated decommitment key. *)
Definition CommitmentTo (vss : VSS) (secret : bytes)
    : R (Commitment * DecommitmentKey) :=
  r <- wrap r_generation_failed (randomFromZn (q vss)) ;;
  digest <- lift (calculateDigest secret (q vss)) ;;
  commitment <- lift (CalculateCommitment vss digest r) ;;
  ret ({| vss := vss; commitment := commitment |}, {| t := r |}).

(** Verify checks the received commitment against the revealed secret
    message. *)
Definition Verify (c : Commitment) (decommitmentKey : DecommitmentKey)
    (secret : bytes) : outcome bool :=
  and_then (calculateDigest secret (q (vss c))) (fun digest =>
  and_then (CalculateCommitment (vss c) digest (t decommitmentKey))
    (fun expectedCommitment =>
  Returns (expectedCommitment =? commitment c))).

End WithPrimitives.

(** A small instance of the collaborators: primality by trial division, and
    the length of the message for a digest. *)
Definition trial_division (x : Z) : bool :=
  (2 <=? x) &&
  forallb (fun d => negb (x mod (Z.of_nat d) =? 0))
    (seq 2 (Z.to_nat x - 2)).

Definition small : Primitives :=
  {| ProbablyPrime := fun x _ => trial_division x;
     Sha256Sum := fun b => Z.of_nat (length b) |}.

(** Parameters over the safe prime 7 = 2 * 3 + 1, and parameters of order
    2. *)
Definition seven : VSS := {| p := 7; q := 3; g := 25; h := 2 |}.


End Pedersen.

(* ================================================================== *)
(** ** Basic facts *)

Lemma bytes_eqb_refl (a : bytes) : bytes_eqb a a = true.
Proof.
  induction a as [|x a IH]; simpl; [reflexivity|].
  rewrite IH, (byte_dec_lb (eq_refl x)). reflexivity.
Qed.

Lemma bytes_eqb_true (a b : bytes) : bytes_eqb a b = true -> a = b.
Proof.
  revert b. induction a as [|x a IH]; intros [|y b]; simpl; intro H;
    try discriminate; [reflexivity|].
  apply andb_true_iff in H. destruct H as [Hx Hr].
  apply byte_dec_bl in Hx. apply IH in Hr. congruence.
Qed.

Lemma bytes_eqb_neq (a b : bytes) : a <> b -> bytes_eqb a b = false.
Proof.
  intro H. destruct (bytes_eqb a b) eqn:E; [|reflexivity].
  apply bytes_eqb_true in E. contradiction.
Qed.

Lemma skipn_length_app {A} (l d : list A) : skipn (length l) (l ++ d) = d.
Proof. induction l as [|x l IH]; simpl; [reflexivity | exact IH]. Qed.

Lemma skipn_length_self {A} (l : list A) : skipn (length l) l = [].
Proof. induction l as [|x l IH]; simpl; [reflexivity | exact IH]. Qed.

(** Unfolds a method down to the primitives of the monad. *)
Ltac expose :=
  unfold newAuthenticatedOutboundConnection,
    newAuthenticatedInboundConnection,
    runHandshakeAsInitiator, runHandshakeAsResponder,
    initiatorSendAct1, initiatorReceiveAct2, initiatorSendAct3,
    responderReceiveAct1, responderSendAct2, responderReceiveAct3,
    verify, set_remotePeerID, ReadMsg, WriteMsg, Close, log,
    bind, lift, ret, fail, with_Conn, record in *;
  cbn beta iota delta [fst snd Conn localPeerID localPeerPrivateKey
    remotePeerID remotePeerPublicKey incoming write_faults journal
    maxSize negb] in *.

(** Brings [since c c'] to the list of the added events. *)
Ltac settle_journal :=
  unfold since, with_Conn, record in *;
  cbn beta iota delta [fst snd Conn journal] in *;
  rewrite <- ?app_assoc in *;
  cbn beta iota delta [app] in *;
  rewrite ?skipn_length_app, ?skipn_length_self in *.

(** Splits on the outcome of the call or test [t]. *)
Ltac step_on t :=
  destruct t eqn:?;
  cbn beta iota delta [or_fail fst snd Conn localPeerID localPeerPrivateKey
    remotePeerID remotePeerPublicKey incoming write_faults journal
    maxSize negb].

Lemma bytes_eqb_false (a b : bytes) : bytes_eqb a b = false -> a <> b.
Proof. intros H ->. rewrite bytes_eqb_refl in H. discriminate. Qed.

Ltac identities :=
  repeat match goal with
  | H : bytes_eqb _ _ = true |- _ => apply bytes_eqb_true in H
  | H : bytes_eqb _ _ = false |- _ => apply bytes_eqb_false in H
  end.

(** Closes the branch of a driver that leaves on the path [C]. *)
Ltac leave_by C :=
  unfold with_Conn, record;
  cbn beta iota delta [fst snd Conn journal localPeerID remotePeerID];
  rewrite <- ?app_assoc; cbn beta iota delta [app];
  identities;
  eexists; split; [first [reflexivity | symmetry; apply app_nil_r]|];
  split; [eapply C; unfold act2_accepted, act1_signed, act2_verified,
            act1_accepted, act2_sent, frame1, frame2, fault1, fault2;
          solve [eauto 12]
         | solve [cbn; auto]].

Section Properties.

Context {crypto : PeerCrypto} {sub : Subprotocol}.

(* ------------------------------------------------------------------ *)
(** *** Every run follows a path *)

Lemma initiator_paths (ac : authenticatedConnection) :
  let out := runHandshakeAsInitiator ac in
  exists tr,
    journal (Conn (snd out)) = journal (Conn ac) ++ tr
    /\ initiator_path ac (fst out) tr
    /\ localPeerID (snd out) = localPeerID ac
    /\ remotePeerID (snd out) = remotePeerID ac.
Proof.
  intro out. subst out. expose.
  step_on InitiateHandshake;
    [|leave_by I_no_initiate].
  match goal with |- context [Act1_Marshal ?x] => step_on (Act1_Marshal x) end;
    [|leave_by I_no_marshal1].
  match goal with |- context [Sign ?k ?x] => step_on (Sign k x) end;
    [|leave_by I_no_sign1].
  step_on (hd false (write_faults (Conn ac))); [leave_by I_write1_fails|].
  step_on (decode maxFrameSize (hd Broken (incoming (Conn ac))));
    [|leave_by I_read2_fails].
  match goal with |- context [bytes_eqb ?x ?y] => step_on (bytes_eqb x y) end;
    [|leave_by I_mismatch].
  match goal with
  | |- context [verifyEnvelope ?x ?y ?z] => step_on (verifyEnvelope x y z)
  end; [|leave_by I_bad_signature2].
  match goal with
  | |- context [Act2_Unmarshal ?x] => step_on (Act2_Unmarshal x)
  end; [|leave_by I_no_unmarshal2].
  match goal with
  | |- context [initiatorAct2_Next ?x ?y] => step_on (initiatorAct2_Next x y)
  end; [|leave_by I_rejected].
  match goal with |- context [Act3_Marshal ?x] => step_on (Act3_Marshal x) end;
    [|leave_by I_no_marshal3].
  match goal with |- context [Sign ?k ?x] => step_on (Sign k x) end;
    [|leave_by I_no_sign3].
  step_on (hd false (tl (write_faults (Conn ac))));
    [leave_by I_write3_fails | leave_by I_done].
Qed.

Lemma responder_paths (ac : authenticatedConnection) :
  let out := runHandshakeAsResponder ac in
  exists tr,
    journal (Conn (snd out)) = journal (Conn ac) ++ tr
    /\ responder_path ac (fst out) tr
    /\ localPeerID (snd out) = localPeerID ac
    /\ remotePeerID (snd out) = last (pins tr) (remotePeerID ac).
Proof.
  intro out. subst out. expose.
  step_on (decode maxFrameSize (hd Broken (incoming (Conn ac))));
    [|leave_by R_read1_fails].
  rewrite bytes_eqb_refl. cbn beta iota delta [negb].
  match goal with
  | |- context [verifyEnvelope ?x ?y ?z] => step_on (verifyEnvelope x y z)
  end; [|leave_by R_bad_signature1].
  match goal with
  | |- context [Act1_Unmarshal ?x] => step_on (Act1_Unmarshal x)
  end; [|leave_by R_no_unmarshal1].
  match goal with
  | |- context [AnswerHandshake ?x] => step_on (AnswerHandshake x)
  end; [|leave_by R_refused].
  match goal with |- context [Act2_Marshal ?x] => step_on (Act2_Marshal x) end;
    [|leave_by R_no_marshal2].
  match goal with |- context [Sign ?k ?x] => step_on (Sign k x) end;
    [|leave_by R_no_sign2].
  step_on (hd false (write_faults (Conn ac))); [leave_by R_write2_fails|].
  step_on (decode maxFrameSize (hd Broken (tl (incoming (Conn ac)))));
    [|leave_by R_read3_fails].
  match goal with |- context [bytes_eqb ?x ?y] => step_on (bytes_eqb x y) end;
    [|leave_by R_mismatch].
  match goal with
  | |- context [verifyEnvelope ?x ?y ?z] => step_on (verifyEnvelope x y z)
  end; [|leave_by R_bad_signature3].
  match goal with
  | |- context [Act3_Unmarshal ?x] => step_on (Act3_Unmarshal x)
  end; [|leave_by R_no_unmarshal3].
  match goal with
  | |- context [FinalizeHandshake ?x ?y] => step_on (FinalizeHandshake x y)
  end; [leave_by R_done | leave_by R_not_finalized].
Qed.

(** The events a driver adds are those of its path. *)
Lemma initiator_trace (ac : authenticatedConnection) :
  initiator_path ac (fst (runHandshakeAsInitiator ac))
    (since (Conn ac) (Conn (snd (runHandshakeAsInitiator ac)))).
Proof.
  destruct (initiator_paths ac) as (tr & Hj & Hp & _).
  unfold since. rewrite Hj, skipn_length_app. exact Hp.
Qed.

Lemma responder_trace (ac : authenticatedConnection) :
  responder_path ac (fst (runHandshakeAsResponder ac))
    (since (Conn ac) (Conn (snd (runHandshakeAsResponder ac)))).
Proof.
  destruct (responder_paths ac) as (tr & Hj & Hp & _).
  unfold since. rewrite Hj, skipn_length_app. exact Hp.
Qed.

(** Opens the stage predicates of a path. *)
Ltac open_premises :=
  repeat match goal with
  | H : act1_signed _ _ _ _ |- _ => destruct H as (? & ? & ?)
  | H : act2_accepted _ _ _ _ |- _ => destruct H as (? & ? & ? & ?)
  | H : act2_verified _ _ |- _ => destruct H as (? & ? & ?)
  | H : act1_accepted _ _ _ |- _ => destruct H as (? & ? & ? & ? & ?)
  | H : act2_sent _ _ _ _ |- _ => destruct H as (? & ? & ?)
  end.

(* ------------------------------------------------------------------ *)
(** *** The constructors run the drivers *)

(** The receiver each constructor builds before it runs its driver. *)
Lemma outbound_paths (c : net_Conn) (lid : peer_ID) (sk : PrivKey)
    (rid : peer_ID) (pk : PubKey) :
  ExtractPublicKey rid = Some pk ->
  let ac0 := {| Conn := c; localPeerID := lid; localPeerPrivateKey := sk;
                remotePeerID := rid; remotePeerPublicKey := Some pk |} in
  let out := newAuthenticatedOutboundConnection c lid sk rid in
  exists r tr,
    initiator_path ac0 r tr
    /\ since c (snd out) = (if is_ok r then tr else tr ++ [EvClose])
    /\ match r with
       | Ok _ => exists ac', fst out = Ok ac' /\ Conn ac' = snd out /\
                            localPeerID ac' = lid /\ remotePeerID ac' = rid
       | Err e => fst out = Err (handshake_failed e)
       end.
Proof.
  intros Hpk ac0 out. subst out.
  unfold newAuthenticatedOutboundConnection. rewrite Hpk. fold ac0.
  destruct (initiator_paths ac0) as (tr & Hj & Hp & Hl & Hr).
  destruct (runHandshakeAsInitiator ac0) as [[u|e] ac1];
    cbn [fst snd] in *; eexists; exists tr; (split; [exact Hp|]);
    cbn [is_ok].
  - split.
    + unfold since. rewrite Hj. apply skipn_length_app.
    + exists ac1. auto.
  - split; [|reflexivity].
    unfold since, Close, log, with_Conn, record. cbn [fst snd Conn journal].
    rewrite Hj, <- app_assoc. apply skipn_length_app.
Qed.

Lemma inbound_paths (c : net_Conn) (lid : peer_ID) (sk : PrivKey)
    (rid : peer_ID) :
  let ac0 := {| Conn := c; localPeerID := lid; localPeerPrivateKey := sk;
                remotePeerID := []; remotePeerPublicKey := None |} in
  let out := newAuthenticatedInboundConnection c lid sk rid in
  exists r tr,
    responder_path ac0 r tr
    /\ since c (snd out) = (if is_ok r then tr else tr ++ [EvClose])
    /\ match r with
       | Ok _ => exists ac', fst out = Ok ac' /\ Conn ac' = snd out /\
                            localPeerID ac' = lid /\
                            remotePeerID ac' = last (pins tr) []
       | Err e => fst out = Err (handshake_failed e)
       end.
Proof.
  intros ac0 out. subst out.
  unfold newAuthenticatedInboundConnection. fold ac0.
  destruct (responder_paths ac0) as (tr & Hj & Hp & Hl & Hr).
  destruct (runHandshakeAsResponder ac0) as [[u|e] ac1];
    cbn [fst snd] in *; eexists; exists tr; (split; [exact Hp|]);
    cbn [is_ok].
  - split.
    + unfold since. rewrite Hj. apply skipn_length_app.
    + exists ac1. auto.
  - split; [|reflexivity].
    unfold since, Close, log, with_Conn, record. cbn [fst snd Conn journal].
    rewrite Hj, <- app_assoc. apply skipn_length_app.
Qed.

(** A frame above the cap decodes to the oversize error. *)
Lemma decode_oversize (cap n : Z) (content : option HandshakeEnvelope) :
  n > cap -> decode cap (Frame n content) = Err frame_oversize.
Proof.
  intro H. cbn. destruct (n >? cap) eqn:E; [reflexivity|].
  rewrite Z.gtb_ltb in E. apply Z.ltb_ge in E. lia.
Qed.

(* ------------------------------------------------------------------ *)
(** *** verify *)

(** What [verify] does, by the comparison of the two identities. *)
Lemma verify_run (pinned sender : peer_ID) (messageBytes signatureBytes : bytes)
    (ac : authenticatedConnection) :
  verify pinned sender messageBytes signatureBytes ac =
    if bytes_eqb pinned sender then
      (if verifyEnvelope sender messageBytes signatureBytes then Ok tt
       else Err signature_invalid,
       with_Conn
         (record (EvVerifyEnvelope sender messageBytes signatureBytes)
            (Conn ac)) ac)
    else (Err (identity_mismatch pinned sender), ac).
Proof.
  unfold verify, bind, log, ret, fail.
  destruct (bytes_eqb pinned sender); cbn; [|reflexivity].
  destruct (verifyEnvelope sender messageBytes signatureBytes); reflexivity.
Qed.

(** C3.  [verify] succeeds exactly when the pinned identity equals the
    sender identity of the envelope, byte for byte, and [verifyEnvelope]
    accepts the message and signature under the sender identity.  When the two
    identities differ it returns the identity-mismatch error, which is not
    the signature error, and leaves the receiver as it found it: no call of
    [verifyEnvelope] is journalled.  When they agree, [verifyEnvelope] is
    called once, on the sender, the message and the signature. *)
Theorem verify_iff_pinned_and_signed
    (pinned sender : peer_ID) (messageBytes signatureBytes : bytes)
    (ac : authenticatedConnection) :
  (fst (verify pinned sender messageBytes signatureBytes ac) = Ok tt <->
     pinned = sender /\
     verifyEnvelope sender messageBytes signatureBytes = true)
  /\ (pinned <> sender ->
        verify pinned sender messageBytes signatureBytes ac =
          (Err (identity_mismatch pinned sender), ac)
        /\ identity_mismatch pinned sender <> signature_invalid
        /\ verified
             (since (Conn ac)
                (Conn (snd (verify pinned sender messageBytes signatureBytes
                              ac)))) = [])
  /\ (pinned = sender ->
        since (Conn ac)
          (Conn (snd (verify pinned sender messageBytes signatureBytes ac)))
          = [EvVerifyEnvelope sender messageBytes signatureBytes]
        /\ (verifyEnvelope sender messageBytes signatureBytes = false ->
             fst (verify pinned sender messageBytes signatureBytes ac) =
               Err signature_invalid)).
Proof.
  rewrite verify_run. split; [|split].
  - split.
    + destruct (bytes_eqb pinned sender) eqn:E; cbn; [|discriminate].
      apply bytes_eqb_true in E.
      destruct (verifyEnvelope sender messageBytes signatureBytes);
        [auto | discriminate].
    + intros [-> Hv]. rewrite bytes_eqb_refl, Hv. reflexivity.
  - intro Hne. rewrite (bytes_eqb_neq Hne). cbn.
    split; [reflexivity|]. split; [discriminate|].
    unfold since. rewrite skipn_length_self. reflexivity.
  - intros ->. rewrite bytes_eqb_refl. cbn. split.
    + unfold since. cbn. apply skipn_length_app.
    + intros ->. reflexivity.
Qed.

(* ------------------------------------------------------------------ *)
(** *** Act 1 on the responder *)

(** The errors [ReadMsg] can return. *)
Lemma decode_errors (cap : Z) (f : frame) (e : error) :
  decode cap f = Err e ->
  e = transport_io \/ e = frame_oversize \/ e = malformed_envelope.
Proof.
  destruct f as [n [env|]|]; cbn; [destruct (n >? cap)| destruct (n >? cap)|];
    intro H; inversion H; auto.
Qed.

(** C2.  [responderReceiveAct1] never returns the identity-mismatch error.
    Whatever envelope [ReadMsg] returns, its [PeerID], empty or not, becomes
    [ac.remotePeerID], and [verify] then compares that value with the same
    field, so the call goes on to [verifyEnvelope] every time.  The step
    fails only with an error of the read, with the signature error, or with
    the error of unmarshalling the Act 1 message. *)
Theorem responderReceiveAct1_mismatch_unreachable
    (rd : ReadCloser) (ac : authenticatedConnection) :
  let f := hd Broken (incoming (Conn ac)) in
  let out := responderReceiveAct1 rd ac in
  let tr := since (Conn ac) (Conn (snd out)) in
  (forall pinned sender, fst out <> Err (identity_mismatch pinned sender))
  /\ (forall e, decode (maxSize rd) f = Ok e ->
        remotePeerID (snd out) = PeerID e
        /\ tr = [EvRead f (Ok e); EvPin (PeerID e);
                 EvVerifyEnvelope (PeerID e) (Message e) (Signature e)])
  /\ (forall err, decode (maxSize rd) f = Err err ->
        fst out = Err err /\ tr = [EvRead f (Err err)])
  /\ (is_ok (fst out) = true
      \/ fst out = Err transport_io
      \/ fst out = Err frame_oversize
      \/ fst out = Err malformed_envelope
      \/ fst out = Err signature_invalid
      \/ fst out = Err unmarshal_error).
Proof.
  intros f out tr. subst out tr.
  unfold responderReceiveAct1, ReadMsg, set_remotePeerID, bind, log, lift.
  fold f. cbn beta iota delta [fst snd Conn remotePeerID with_Conn].
  destruct (decode (maxSize rd) f) as [env|err] eqn:D.
  - rewrite verify_run, bytes_eqb_refl.
    cbn beta iota delta [fst snd Conn remotePeerID with_Conn].
    destruct (verifyEnvelope (PeerID env) (Message env) (Signature env));
      [destruct (Act1_Unmarshal (Message env))|]; cbn [or_fail fst snd];
      (split; [discriminate|]);
      (split; [intros e He; inversion He; subst e; split;
                 [reflexivity | settle_journal; reflexivity]|]);
      (split; [discriminate|]); cbn; auto 7.
  - cbn [fst snd]. split; [|split; [|split]].
    + intros p s H. inversion H. subst err.
      apply decode_errors in D. destruct D as [D|[D|D]]; discriminate.
    + discriminate.
    + intros e He. inversion He. subst e. split; [reflexivity|].
      settle_journal. reflexivity.
    + apply decode_errors in D. destruct D as [-> | [-> | ->]]; auto 7.
Qed.

(* ------------------------------------------------------------------ *)
(** *** Ordering on the initiator *)

(** C10.  A run of [runHandshakeAsInitiator] calls [WriteMsg] at most twice.
    Whenever it calls it a second time, that is, whenever it hands the Act 3
    envelope to the writer, the run has before that written the Act 1
    envelope, read an envelope [e2] under the cap, found its [PeerID] equal
    to the pinned identity, had [verifyEnvelope] accept it, unmarshalled its
    message and had [initiatorAct2.Next] return the Act 3 state, in this
    order and with nothing else in between.  A run that stops with at most
    one write returns an error. *)
Theorem act3_sent_only_after_act2_accepted (ac : authenticatedConnection) :
  let out := runHandshakeAsInitiator ac in
  let tr := since (Conn ac) (Conn (snd out)) in
  (length (written tr) <= 2)%nat
  /\ ((2 <= length (written tr))%nat ->
      exists st1 e2 m2 st3 env1 env3 ok,
        InitiateHandshake = Some st1
        /\ decode maxFrameSize (frame1 ac) = Ok e2
        /\ remotePeerID ac = PeerID e2
        /\ verifyEnvelope (PeerID e2) (Message e2) (Signature e2) = true
        /\ Act2_Unmarshal (Message e2) = Some m2
        /\ initiatorAct2_Next (initiatorAct1_Next st1) m2 = Some st3
        /\ Act3_Marshal (initiatorAct3_Message st3) = Some (Message env3)
        /\ tr = [EvWrite env1 true; EvRead (frame1 ac) (Ok e2);
                 EvVerifyEnvelope (PeerID e2) (Message e2) (Signature e2);
                 EvWrite env3 ok])
  /\ ((length (written tr) <= 1)%nat -> is_ok (fst out) = false).
Proof.
  intros out tr. subst out tr.
  pose proof (initiator_trace ac) as Hp.
  remember (fst (runHandshakeAsInitiator ac)) as r.
  remember (since (Conn ac) (Conn (snd (runHandshakeAsInitiator ac)))) as tr.
  destruct Hp; open_premises; unfold EvVerify; cbn [written length is_ok];
    (split; [lia|]); (split; [|first [reflexivity | intro; exfalso; lia]]);
    intro Hlen; try (exfalso; lia).
  all: do 7 eexists; repeat (split; [eassumption|]).
  all: split; [|reflexivity]; cbn [envelope_of Message]; eassumption.
Qed.

(* ------------------------------------------------------------------ *)
(** *** Envelopes of a successful handshake *)

(** C6.  When the initiator driver and the responder driver both return
    without error, the initiator has called [WriteMsg] exactly twice, on the
    Act 1 envelope and then on the Act 3 envelope, the responder exactly
    once, on the Act 2 envelope; that makes three envelopes, and every one of
    these writes went through. *)
Theorem successful_handshake_three_envelopes
    (aci acr : authenticatedConnection) :
  let outi := runHandshakeAsInitiator aci in
  let outr := runHandshakeAsResponder acr in
  let tri := since (Conn aci) (Conn (snd outi)) in
  let trr := since (Conn acr) (Conn (snd outr)) in
  fst outi = Ok tt -> fst outr = Ok tt ->
  (exists st1 st3 env1 env3,
      InitiateHandshake = Some st1
      /\ Act1_Marshal (initiatorAct1_Message st1) = Some (Message env1)
      /\ Act3_Marshal (initiatorAct3_Message st3) = Some (Message env3)
      /\ written tri = [env1; env3])
  /\ (exists st2 env2,
        Act2_Marshal (responderAct2_Message st2) = Some (Message env2)
        /\ written trr = [env2])
  /\ length (written tri ++ written trr) = 3%nat
  /\ (forall e ok, In (EvWrite e ok) (tri ++ trr) -> ok = true).
Proof.
  intros outi outr tri trr. subst outi outr tri trr.
  pose proof (initiator_trace aci) as Hi.
  pose proof (responder_trace acr) as Hr.
  remember (fst (runHandshakeAsInitiator aci)) as ri.
  remember (since (Conn aci) (Conn (snd (runHandshakeAsInitiator aci)))) as tri.
  remember (fst (runHandshakeAsResponder acr)) as rr.
  remember (since (Conn acr) (Conn (snd (runHandshakeAsResponder acr)))) as trr.
  intros Hoki Hokr.
  destruct Hi; try discriminate. destruct Hr; try discriminate.
  open_premises. unfold EvVerify. cbn [written length app].
  split; [|split; [|split]].
  - do 4 eexists. split; [eassumption|].
    split; [|split; [|reflexivity]]; cbn [envelope_of Message]; eassumption.
  - do 2 eexists. split; [|reflexivity]. cbn [envelope_of Message].
    eassumption.
  - reflexivity.
  - intros e ok Hin. cbn in Hin.
    repeat (destruct Hin as [Hin|Hin];
            [try discriminate; inversion Hin; reflexivity|]).
    contradiction.
Qed.

(* ------------------------------------------------------------------ *)
(** *** Identity pinning *)

(** C4.  When [newAuthenticatedOutboundConnection], given the expected remote
    identity [R], reads an envelope whose [PeerID] differs from [R], it
    returns the handshake failure that wraps the identity-mismatch error of
    [R] and that [PeerID]; its only write is the one of Act 1, which came
    before the read, and its last action is to close the connection. *)
Theorem outbound_rejects_unexpected_identity
    (c : net_Conn) (lid : peer_ID) (sk : PrivKey) (R : peer_ID)
    (e2 : HandshakeEnvelope) :
  let out := newAuthenticatedOutboundConnection c lid sk R in
  let tr := since c (snd out) in
  received tr = [e2] -> PeerID e2 <> R ->
  fst out = Err (handshake_failed (identity_mismatch R (PeerID e2)))
  /\ (exists env1,
        tr = [EvWrite env1 true; EvRead (hd Broken (incoming c)) (Ok e2);
              EvClose])
  /\ length (written tr) = 1%nat
  /\ closes tr = 1%nat.
Proof.
  intros out tr. subst out tr.
  destruct (ExtractPublicKey R) as [pk|] eqn:Hpk.
  - destruct (outbound_paths c lid sk R Hpk) as (r & tr & Hp & Hs & Hres).
    rewrite Hs. clear Hs.
    destruct Hp; open_premises; unfold EvVerify in *;
      cbn [is_ok app received written closes length] in *;
      intros Hrec Hne; inversion Hrec; subst;
      cbn [remotePeerID frame1 Conn] in *;
      try congruence.
    rewrite Hres. split; [reflexivity|].
    split; [eexists; reflexivity|]. split; reflexivity.
  - unfold newAuthenticatedOutboundConnection. rewrite Hpk.
    cbn [fst snd]. unfold since. rewrite skipn_length_self.
    discriminate.
Qed.

(** C5.  In a run of [newAuthenticatedInboundConnection] the field
    [remotePeerID] is assigned at most once.  It is not assigned when no
    envelope is read; when one is read, it is assigned exactly once, right
    after the first read and to the [PeerID] of that envelope, and never
    again, whatever follows.  A successful run returns a connection pinned to
    that identity.  When the second envelope read carries another [PeerID],
    the run returns the handshake failure that wraps the identity-mismatch
    error of the two identities. *)
Theorem responder_pins_once_and_rejects_change
    (c : net_Conn) (lid : peer_ID) (sk : PrivKey) (rid : peer_ID) :
  let out := newAuthenticatedInboundConnection c lid sk rid in
  let tr := since c (snd out) in
  (length (pins tr) <= 1)%nat
  /\ (received tr = [] -> pins tr = [])
  /\ (forall e1 rest, received tr = e1 :: rest ->
        exists post,
          tr = EvRead (hd Broken (incoming c)) (Ok e1)
                 :: EvPin (PeerID e1) :: post
          /\ pins post = [])
  /\ (forall ac', fst out = Ok ac' ->
        exists e1 e3, received tr = [e1; e3]
                      /\ remotePeerID ac' = PeerID e1
                      /\ PeerID e3 = PeerID e1)
  /\ (forall e1 e3, received tr = [e1; e3] -> PeerID e3 <> PeerID e1 ->
        fst out =
          Err (handshake_failed (identity_mismatch (PeerID e1) (PeerID e3)))).
Proof.
  intros out tr. subst out tr.
  destruct (inbound_paths c lid sk rid) as (r & tr & Hp & Hs & Hres).
  rewrite Hs. clear Hs.
  destruct Hp; open_premises; unfold EvVerify in *;
    cbn [is_ok app received pins length last] in *;
    (split; [lia|]); (split; [try discriminate; reflexivity|]);
    (split; [intros ? ? Hrec; inversion Hrec; subst;
             eexists; split; reflexivity|]);
    (split; [intros ac' Hok; try (rewrite Hres in Hok; discriminate)|
             intros ? ? Hrec Hne; inversion Hrec; subst;
             try (exfalso; congruence); try (rewrite Hres; reflexivity)]).
  destruct Hres as (ac1 & Hfst & _ & _ & Hpin).
  rewrite Hfst in Hok. inversion Hok. subst ac'.
  do 2 eexists. split; [reflexivity|]. split; [exact Hpin | congruence].
Qed.


(* ------------------------------------------------------------------ *)
(** *** Frames above the cap *)

Ltac oversize_cases Hin Hres :=
  open_premises; unfold EvVerify, frame1, frame2 in *;
  cbn [is_ok app In Conn incoming] in *;
  repeat (destruct Hin as [Hin|Hin];
          [try discriminate Hin; inversion Hin; subst; clear Hin|]);
  try contradiction;
  repeat match goal with
  | Hf : ?f = Frame _ _, Hd : decode _ ?f = _ |- _ =>
      rewrite Hf in Hd;
      rewrite decode_oversize in Hd by (unfold maxFrameSize; lia);
      try discriminate Hd; inversion Hd; subst; clear Hd
  end;
  rewrite Hres;
  refine (conj eq_refl (conj eq_refl _));
  first [ exists (@nil event); reflexivity
        | eexists (_ :: nil); reflexivity
        | eexists (_ :: _ :: _ :: _ :: nil); reflexivity ].

(** C8.  Both constructors read through a reader capped at 1024 bytes.  When
    a read of either of them meets a frame of more than 1024 bytes, that read
    returns the oversize error, the constructor returns the handshake failure
    that wraps it, and the only thing done after the read is to close the
    connection: the content of the frame is not verified, adopted or
    answered. *)
Theorem oversize_frame_aborts
    (c : net_Conn) (lid : peer_ID) (sk : PrivKey) (rid : peer_ID)
    (n : Z) (content : option HandshakeEnvelope)
    (r : result HandshakeEnvelope)
    (out : result authenticatedConnection * net_Conn) :
  n > 1024 ->
  out = newAuthenticatedOutboundConnection c lid sk rid \/
  out = newAuthenticatedInboundConnection c lid sk rid ->
  In (EvRead (Frame n content) r) (since c (snd out)) ->
  r = Err frame_oversize
  /\ fst out = Err (handshake_failed frame_oversize)
  /\ exists pre,
       since c (snd out) = pre ++ [EvRead (Frame n content) r; EvClose].
Proof.
  intros Hn [-> | ->].
  - destruct (ExtractPublicKey rid) as [pk|] eqn:Hpk.
    + destruct (outbound_paths c lid sk rid Hpk) as (r0 & tr & Hp & Hs & Hres).
      rewrite Hs. clear Hs. intro Hin.
      destruct Hp; oversize_cases Hin Hres.
    + unfold newAuthenticatedOutboundConnection. rewrite Hpk.
      cbn [fst snd]. unfold since. rewrite skipn_length_self.
      intros [].
  - destruct (inbound_paths c lid sk rid) as (r0 & tr & Hp & Hs & Hres).
    rewrite Hs. clear Hs. intro Hin.
    destruct Hp; oversize_cases Hin Hres.
Qed.

(* ------------------------------------------------------------------ *)
(** *** The responder before Act 1 *)

(** Result and added events of [responderReceiveAct1]. *)
Lemma responderReceiveAct1_run (rd : ReadCloser) (ac : authenticatedConnection) :
  let f := hd Broken (incoming (Conn ac)) in
  let act1 := responderReceiveAct1 rd ac in
  fst act1 =
    match decode (maxSize rd) f with
    | Err e => Err e
    | Ok env =>
        if verifyEnvelope (PeerID env) (Message env) (Signature env)
        then or_fail (Act1_Unmarshal (Message env)) unmarshal_error
        else Err signature_invalid
    end
  /\ since (Conn ac) (Conn (snd act1)) =
    match decode (maxSize rd) f with
    | Err e => [EvRead f (Err e)]
    | Ok env => [EvRead f (Ok env); EvPin (PeerID env); EvVerify env]
    end.
Proof.
  intros f act1. subst act1.
  unfold responderReceiveAct1, ReadMsg, set_remotePeerID, bind, log, lift.
  fold f. cbn beta iota delta [fst snd Conn remotePeerID with_Conn].
  destruct (decode (maxSize rd) f) as [env|err].
  - rewrite verify_run, bytes_eqb_refl.
    cbn beta iota delta [fst snd Conn remotePeerID with_Conn].
    destruct (verifyEnvelope (PeerID env) (Message env) (Signature env));
      [destruct (Act1_Unmarshal (Message env))|]; cbn [or_fail fst snd];
      (split; [reflexivity | settle_journal; reflexivity]).
  - cbn [fst snd]. split; [reflexivity | settle_journal; reflexivity].
Qed.

(** C9.  [responderReceiveAct1] writes nothing.  When it fails,
    [runHandshakeAsResponder] returns its error at once, in the state it left,
    so that the whole run has written nothing.  In a run that does call
    [WriteMsg], the events before the first call are the read of an envelope
    under the cap, the adoption of its [PeerID] and the call of
    [verifyEnvelope] on it, which accepted it; the Act 1 message was then
    unmarshalled. *)
Theorem responder_silent_until_act1_validated (ac : authenticatedConnection) :
  let act1 := responderReceiveAct1 (NewDelimitedReader maxFrameSize) ac in
  let out := runHandshakeAsResponder ac in
  let tr := since (Conn ac) (Conn (snd out)) in
  written (since (Conn ac) (Conn (snd act1))) = []
  /\ (forall err, fst act1 = Err err ->
        out = (Err err, snd act1) /\ written tr = [])
  /\ (written tr <> [] ->
        exists e1 m1,
          fst act1 = Ok m1
          /\ decode maxFrameSize (frame1 ac) = Ok e1
          /\ verifyEnvelope (PeerID e1) (Message e1) (Signature e1) = true
          /\ Act1_Unmarshal (Message e1) = Some m1
          /\ before_first_write tr =
               [EvRead (frame1 ac) (Ok e1); EvPin (PeerID e1);
                EvVerifyEnvelope (PeerID e1) (Message e1) (Signature e1)]).
Proof.
  intros act1 out tr.
  destruct (responderReceiveAct1_run (NewDelimitedReader maxFrameSize) ac)
    as [Hfst Htr].
  cbv zeta in Hfst, Htr. fold act1 in Hfst, Htr. cbn [maxSize] in Hfst, Htr.
  assert (Hsilent : written (since (Conn ac) (Conn (snd act1))) = []).
  { rewrite Htr.
    destruct (decode maxFrameSize (hd Broken (incoming (Conn ac))));
      reflexivity. }
  split; [exact Hsilent|]. split.
  - intros err Herr.
    assert (Hout : out = (Err err, snd act1)).
    { subst out. unfold runHandshakeAsResponder. unfold bind at 1.
      fold act1. destruct act1 as [[m|e] ac1]; cbn [fst snd] in *;
        [discriminate | congruence]. }
    split; [exact Hout|]. subst tr. rewrite Hout. exact Hsilent.
  - subst out tr. pose proof (responder_trace ac) as Hp.
    remember (fst (runHandshakeAsResponder ac)) as r.
    remember (since (Conn ac) (Conn (snd (runHandshakeAsResponder ac)))) as tr.
    destruct Hp; open_premises; unfold EvVerify, frame1 in *;
      cbn [written before_first_write] in *; intro Hw;
      try congruence;
      match goal with
      | Hd : decode _ _ = Ok ?e, Hv : verifyEnvelope (PeerID ?e) _ _ = true,
        Hu : Act1_Unmarshal (Message ?e) = Some ?m |- _ =>
          exists e, m; rewrite Hfst, Hd, Hv, Hu
      end; cbn [or_fail]; repeat split; reflexivity.
Qed.

(* ------------------------------------------------------------------ *)
(** *** The envelopes sent *)

(** C7.  For each of [initiatorSendAct1], [responderSendAct2] and
    [initiatorSendAct3]: every envelope the step hands to [WriteMsg] carries
    the wire message it was given, the local identity of the receiver as
    [PeerID], and as [Signature] what [Sign] returned for that message under
    the local private key.  When [Sign] succeeds the step writes exactly that
    envelope; when it fails the step writes nothing. *)
Theorem sent_envelopes_carry_local_identity
    (w : bytes) (wr : WriteCloser) (ac : authenticatedConnection)
    (send : bytes -> WriteCloser -> M unit) :
  send = initiatorSendAct1 \/ send = responderSendAct2 \/
  send = initiatorSendAct3 ->
  let out := send w wr ac in
  let tr := since (Conn ac) (Conn (snd out)) in
  (forall e ok, In (EvWrite e ok) tr ->
     Message e = w /\ PeerID e = localPeerID ac /\
     Sign (localPeerPrivateKey ac) w = Some (Signature e))
  /\ (forall s, Sign (localPeerPrivateKey ac) w = Some s ->
        tr = [EvWrite {| Message := w; PeerID := localPeerID ac;
                         Signature := s |} (negb (fault1 ac))])
  /\ (Sign (localPeerPrivateKey ac) w = None ->
        tr = [] /\ fst out = Err crypto_error)
  /\ localPeerID (snd out) = localPeerID ac.
Proof.
  intros Hsend out tr. subst out tr.
  assert (Hrun : send w wr ac =
    match Sign (localPeerPrivateKey ac) w with
    | Some s =>
        WriteMsg wr {| Message := w; PeerID := localPeerID ac;
                       Signature := s |} ac
    | None => (Err crypto_error, ac)
    end).
  { destruct Hsend as [-> | [-> | ->]];
      unfold initiatorSendAct1, responderSendAct2, initiatorSendAct3,
        bind, lift;
      destruct (Sign (localPeerPrivateKey ac) w); reflexivity. }
  rewrite Hrun. clear Hrun Hsend.
  destruct (Sign (localPeerPrivateKey ac) w) as [s|].
  - unfold WriteMsg, fault1. settle_journal.
    split; [|split; [|split]].
    + intros e ok [Hin | []]. inversion Hin. subst. cbn. auto.
    + intros s' Hs. inversion Hs. reflexivity.
    + discriminate.
    + reflexivity.
  - settle_journal. split; [|split; [|split]].
    + intros e ok [].
    + discriminate.
    + auto.
    + reflexivity.
Qed.

(* ------------------------------------------------------------------ *)
(** *** Teardown *)

(** Once the driver has been started, an error return closes the connection
    last and once. *)
Lemma failed_handshake_closes
    (c : net_Conn) (lid : peer_ID) (sk : PrivKey) (rid : peer_ID)
    (out : result authenticatedConnection * net_Conn) :
  out = newAuthenticatedInboundConnection c lid sk rid \/
  (ExtractPublicKey rid <> None /\
   out = newAuthenticatedOutboundConnection c lid sk rid) ->
  is_ok (fst out) = false ->
  closes (since c (snd out)) = 1%nat
  /\ exists pre, since c (snd out) = pre ++ [EvClose].
Proof.
  intros [-> | [Hpk ->]].
  - destruct (inbound_paths c lid sk rid) as (r & tr & Hp & Hs & Hres).
    rewrite Hs. clear Hs.
    destruct Hp; (try (destruct Hres as (ac' & -> & _); discriminate));
      intros _; unfold EvVerify; (split; [reflexivity|]);
      eexists; reflexivity.
  - destruct (ExtractPublicKey rid) as [pk|] eqn:E; [|congruence].
    destruct (outbound_paths c lid sk rid E) as (r & tr & Hp & Hs & Hres).
    rewrite Hs. clear Hs.
    destruct Hp; (try (destruct Hres as (ac' & -> & _); discriminate));
      intros _; unfold EvVerify; (split; [reflexivity|]);
      eexists; reflexivity.
Qed.

(** C1, at the input where it fails.  When [ExtractPublicKey] fails on the
    expected remote identity, [newAuthenticatedOutboundConnection] returns
    its error and hands the connection back as it received it: [Close] has
    not been called. *)
Theorem outbound_unclosed_on_malformed_identity
    (c : net_Conn) (lid : peer_ID) (sk : PrivKey) (rid : peer_ID) :
  ExtractPublicKey rid = None ->
  let out := newAuthenticatedOutboundConnection c lid sk rid in
  fst out = Err (outbound_creation_failed malformed_identity)
  /\ snd out = c
  /\ closes (since c (snd out)) = 0%nat.
Proof.
  intros Hpk out. subst out.
  unfold newAuthenticatedOutboundConnection. rewrite Hpk. cbn [fst snd].
  unfold since. rewrite skipn_length_self. auto.
Qed.

(* ------------------------------------------------------------------ *)
(** *** Further properties of the handshake *)





(** Closes a path, failed or successful, of the statement on [Close]. *)
Ltac close_cases Hres :=
  first
    [ rewrite Hres; cbn [is_ok];
      refine (conj eq_refl (conj _ _));
      [ intros _; eexists; split; reflexivity
      | intros ? ?; discriminate ]
    | let Hfst := fresh in
      let Hconn := fresh in
      let Hok := fresh in
      destruct Hres as (? & Hfst & Hconn & _); rewrite Hfst; cbn [is_ok];
      refine (conj eq_refl (conj _ _));
      [ intro; discriminate
      | intros ? Hok; inversion Hok; subst; exact Hconn ] ].

(** X1.  Once a constructor has started its driver (the inbound one always,
    the outbound one when the public key can be extracted), it calls [Close]
    exactly when it returns an error: once, as its last action.  A
    constructor that succeeds never closes the connection, and the connection
    inside the value it returns is the connection as the handshake left
    it. *)
Theorem constructors_close_exactly_on_failure
    (c : net_Conn) (lid : peer_ID) (sk : PrivKey) (rid : peer_ID)
    (out : result authenticatedConnection * net_Conn) :
  out = newAuthenticatedInboundConnection c lid sk rid \/
  (ExtractPublicKey rid <> None /\
   out = newAuthenticatedOutboundConnection c lid sk rid) ->
  closes (since c (snd out)) = (if is_ok (fst out) then 0 else 1)%nat
  /\ (is_ok (fst out) = false ->
      exists pre, since c (snd out) = pre ++ [EvClose] /\ closes pre = 0%nat)
  /\ (forall ac', fst out = Ok ac' -> Conn ac' = snd out).
Proof.
  intros [-> | [Hpk ->]].
  - destruct (inbound_paths c lid sk rid) as (r & tr & Hp & Hs & Hres).
    rewrite Hs. clear Hs.
    destruct Hp; unfold EvVerify; close_cases Hres.
  - destruct (ExtractPublicKey rid) as [pk|] eqn:E; [|congruence].
    destruct (outbound_paths c lid sk rid E) as (r & tr & Hp & Hs & Hres).
    rewrite Hs. clear Hs.
    destruct Hp; unfold EvVerify; close_cases Hres.
Qed.

(** X2.  [newAuthenticatedOutboundConnection] succeeds only after it has
    written the Act 1 envelope, read one envelope under the cap whose
    [PeerID] is the expected remote identity and whose signature
    [verifyEnvelope] accepts under that identity, had the sub-protocol accept
    its message, and written the Act 3 envelope; both envelopes it wrote name
    the local identity, and the connection returned is pinned to the
    expected remote identity. *)
Theorem outbound_success_authenticates
    (c : net_Conn) (lid : peer_ID) (sk : PrivKey) (rid : peer_ID)
    (ac' : authenticatedConnection) :
  fst (newAuthenticatedOutboundConnection c lid sk rid) = Ok ac' ->
  ExtractPublicKey rid <> None
  /\ localPeerID ac' = lid /\ remotePeerID ac' = rid
  /\ exists e2 env1 env3 st1 m2 st3,
       since c (snd (newAuthenticatedOutboundConnection c lid sk rid)) =
         [EvWrite env1 true; EvRead (hd Broken (incoming c)) (Ok e2);
          EvVerifyEnvelope rid (Message e2) (Signature e2);
          EvWrite env3 true]
       /\ decode maxFrameSize (hd Broken (incoming c)) = Ok e2
       /\ PeerID e2 = rid
       /\ verifyEnvelope rid (Message e2) (Signature e2) = true
       /\ InitiateHandshake = Some st1
       /\ Act2_Unmarshal (Message e2) = Some m2
       /\ initiatorAct2_Next (initiatorAct1_Next st1) m2 = Some st3
       /\ PeerID env1 = lid /\ PeerID env3 = lid.
Proof.
  destruct (ExtractPublicKey rid) as [pk|] eqn:Hpk.
  - destruct (outbound_paths c lid sk rid Hpk) as (r & tr & Hp & Hs & Hres).
    rewrite Hs. clear Hs.
    destruct Hp; try (rewrite Hres; discriminate).
    destruct Hres as (ac1 & Hfst & _ & Hl & Hr). rewrite Hfst.
    intro Hok. inversion Hok. subst ac1.
    open_premises. unfold EvVerify, frame1 in *.
    cbn [is_ok remotePeerID Conn incoming] in *.
    split; [discriminate|]. split; [exact Hl|]. split; [exact Hr|].
    match goal with
    | Hd : decode _ _ = Ok ?e, Hi : InitiateHandshake = Some ?s,
      Hu : Act2_Unmarshal _ = Some ?m, Hn : initiatorAct2_Next _ _ = Some ?s3
      |- _ =>
        assert (Hid : PeerID e = rid) by congruence;
        exists e; do 2 eexists; exists s, m, s3
    end.
    rewrite Hid in *. repeat split; eauto.
  - unfold newAuthenticatedOutboundConnection. rewrite Hpk. discriminate.
Qed.

(** X3.  [newAuthenticatedInboundConnection] succeeds only after it has read
    two envelopes under the cap that carry the same [PeerID], both with a
    signature [verifyEnvelope] accepts under that identity, with its own
    Act 2 envelope written in between and the sub-protocol finalized; the
    connection returned is pinned to that identity. *)
Theorem inbound_success_authenticates
    (c : net_Conn) (lid : peer_ID) (sk : PrivKey) (rid : peer_ID)
    (ac' : authenticatedConnection) :
  fst (newAuthenticatedInboundConnection c lid sk rid) = Ok ac' ->
  localPeerID ac' = lid
  /\ exists e1 e3 env2 m1 st2 m3,
       since c (snd (newAuthenticatedInboundConnection c lid sk rid)) =
         [EvRead (hd Broken (incoming c)) (Ok e1); EvPin (PeerID e1);
          EvVerifyEnvelope (PeerID e1) (Message e1) (Signature e1);
          EvWrite env2 true;
          EvRead (hd Broken (tl (incoming c))) (Ok e3);
          EvVerifyEnvelope (PeerID e3) (Message e3) (Signature e3)]
       /\ remotePeerID ac' = PeerID e1
       /\ PeerID e3 = PeerID e1
       /\ verifyEnvelope (PeerID e1) (Message e1) (Signature e1) = true
       /\ verifyEnvelope (PeerID e1) (Message e3) (Signature e3) = true
       /\ Act1_Unmarshal (Message e1) = Some m1
       /\ AnswerHandshake m1 = Some st2
       /\ Act3_Unmarshal (Message e3) = Some m3
       /\ FinalizeHandshake (responderAct2_Next st2) m3 = true
       /\ PeerID env2 = lid.
Proof.
  destruct (inbound_paths c lid sk rid) as (r & tr & Hp & Hs & Hres).
  rewrite Hs. clear Hs.
  destruct Hp; try (rewrite Hres; discriminate).
  destruct Hres as (ac1 & Hfst & _ & Hl & Hr). rewrite Hfst.
  intro Hok. inversion Hok. subst ac1.
  open_premises. unfold EvVerify, frame1, frame2 in *.
  cbn [is_ok remotePeerID Conn incoming pins last] in *.
  split; [exact Hl|].
  match goal with
  | Hu1 : Act1_Unmarshal (Message ?a) = Some ?m1,
    Ha : AnswerHandshake ?m1 = Some ?s2,
    Hu3 : Act3_Unmarshal (Message ?b) = Some ?m3 |- _ =>
      exists a, b; eexists; exists m1, s2, m3
  end.
  split; [reflexivity|]. split; [exact Hr|].
  repeat split; eauto; congruence.
Qed.

(** Finds in the trace of a path the event named by [Hin]. *)
Ltac find_event Hin :=
  open_premises; unfold EvVerify, frame1, frame2 in *;
  cbn [is_ok app In Conn incoming] in *;
  repeat (destruct Hin as [Hin|Hin];
          [try discriminate Hin; inversion Hin; subst; clear Hin|]);
  try contradiction.

Ltac give_prefix :=
  first [ exists (@nil event); reflexivity
        | eexists (_ :: nil); reflexivity
        | eexists (_ :: _ :: nil); reflexivity
        | eexists (_ :: _ :: _ :: nil); reflexivity
        | eexists (_ :: _ :: _ :: _ :: nil); reflexivity
        | eexists (_ :: _ :: _ :: _ :: _ :: nil); reflexivity ].

(** X4.  In a run of either constructor, a call of [verifyEnvelope] that
    rejects is the last thing done before the connection is closed, and the
    constructor returns the handshake failure that wraps the signature
    error. *)
Theorem rejected_signature_aborts
    (c : net_Conn) (lid : peer_ID) (sk : PrivKey) (rid : peer_ID)
    (out : result authenticatedConnection * net_Conn)
    (sender : peer_ID) (messageBytes signatureBytes : bytes) :
  out = newAuthenticatedOutboundConnection c lid sk rid \/
  out = newAuthenticatedInboundConnection c lid sk rid ->
  In (EvVerifyEnvelope sender messageBytes signatureBytes)
    (since c (snd out)) ->
  verifyEnvelope sender messageBytes signatureBytes = false ->
  fst out = Err (handshake_failed signature_invalid)
  /\ exists pre,
       since c (snd out) =
         pre ++ [EvVerifyEnvelope sender messageBytes signatureBytes;
                 EvClose].
Proof.
  intros [-> | ->].
  - destruct (ExtractPublicKey rid) as [pk|] eqn:Hpk.
    + destruct (outbound_paths c lid sk rid Hpk) as (r & tr & Hp & Hs & Hres).
      rewrite Hs. clear Hs. intros Hin Hbad.
      destruct Hp; find_event Hin; try congruence;
        rewrite Hres; refine (conj eq_refl _); give_prefix.
    + unfold newAuthenticatedOutboundConnection. rewrite Hpk.
      cbn [fst snd]. unfold since. rewrite skipn_length_self.
      intros [].
  - destruct (inbound_paths c lid sk rid) as (r & tr & Hp & Hs & Hres).
    rewrite Hs. clear Hs. intros Hin Hbad.
    destruct Hp; find_event Hin; try congruence;
      rewrite Hres; refine (conj eq_refl _); give_prefix.
Qed.

(** X5.  In a run of either constructor, a read that returns an error and a
    write that fails are each the last thing done before the connection is
    closed; the constructor returns the handshake failure that wraps the
    error of the read, respectively the I/O error of the write. *)
Theorem failed_io_aborts
    (c : net_Conn) (lid : peer_ID) (sk : PrivKey) (rid : peer_ID)
    (out : result authenticatedConnection * net_Conn) :
  out = newAuthenticatedOutboundConnection c lid sk rid \/
  out = newAuthenticatedInboundConnection c lid sk rid ->
  (forall f err, In (EvRead f (Err err)) (since c (snd out)) ->
     fst out = Err (handshake_failed err)
     /\ exists pre, since c (snd out) = pre ++ [EvRead f (Err err); EvClose])
  /\ (forall env, In (EvWrite env false) (since c (snd out)) ->
        fst out = Err (handshake_failed transport_io)
        /\ exists pre,
             since c (snd out) = pre ++ [EvWrite env false; EvClose]).
Proof.
  intros [-> | ->].
  - destruct (ExtractPublicKey rid) as [pk|] eqn:Hpk.
    + destruct (outbound_paths c lid sk rid Hpk) as (r & tr & Hp & Hs & Hres).
      rewrite Hs. clear Hs.
      split; [intros f err Hin | intros env Hin];
        destruct Hp; find_event Hin;
        rewrite Hres; refine (conj eq_refl _); give_prefix.
    + unfold newAuthenticatedOutboundConnection. rewrite Hpk.
      cbn [fst snd]. unfold since. rewrite skipn_length_self.
      split; [intros f err [] | intros env []].
  - destruct (inbound_paths c lid sk rid) as (r & tr & Hp & Hs & Hres).
    rewrite Hs. clear Hs.
    split; [intros f err Hin | intros env Hin];
      destruct Hp; find_event Hin;
      rewrite Hres; refine (conj eq_refl _); give_prefix.
Qed.






End Properties.

(* ================================================================== *)
(** ** Runs on the Echo instance *)

Section EchoRuns.

#[local] Existing Instance Echo.crypto.
#[local] Existing Instance Echo.sub.

Lemma verify_iff_pinned_and_signed_witness :
  Echo.alice <> Echo.bob /\
  verify Echo.alice Echo.bob Echo.challenge (Echo.bob ++ Echo.challenge)
    Echo.bob_listens =
    (Err (identity_mismatch Echo.alice Echo.bob), Echo.bob_listens).
Proof.
  assert (H : Echo.alice <> Echo.bob) by discriminate.
  split; [exact H|].
  exact (proj1 (proj1 (proj2
    (verify_iff_pinned_and_signed Echo.alice Echo.bob Echo.challenge
       (Echo.bob ++ Echo.challenge) Echo.bob_listens)) H)).
Defined.

Lemma responderReceiveAct1_mismatch_unreachable_witness :
  decode maxFrameSize (Frame 9 (Some Echo.anonymous)) = Ok Echo.anonymous /\
  remotePeerID
    (snd (responderReceiveAct1 (NewDelimitedReader maxFrameSize)
            Echo.bob_meets_anonymous)) = [].
Proof.
  assert (H : decode maxFrameSize (Frame 9 (Some Echo.anonymous)) =
              Ok Echo.anonymous) by reflexivity.
  split; [exact H|].
  exact (proj1 (proj1 (proj2
    (responderReceiveAct1_mismatch_unreachable
       (NewDelimitedReader maxFrameSize) Echo.bob_meets_anonymous))
    Echo.anonymous H)).
Defined.

Lemma act3_sent_only_after_act2_accepted_witness :
  (2 <= length (written (since (Conn Echo.alice_dials_bob)
                  (Conn (snd (runHandshakeAsInitiator
                                Echo.alice_dials_bob))))))%nat /\
  exists st1 e2 m2 st3 env1 env3 ok,
    InitiateHandshake = Some st1
    /\ decode maxFrameSize (frame1 Echo.alice_dials_bob) = Ok e2
    /\ remotePeerID Echo.alice_dials_bob = PeerID e2
    /\ verifyEnvelope (PeerID e2) (Message e2) (Signature e2) = true
    /\ Act2_Unmarshal (Message e2) = Some m2
    /\ initiatorAct2_Next (initiatorAct1_Next st1) m2 = Some st3
    /\ Act3_Marshal (initiatorAct3_Message st3) = Some (Message env3)
    /\ since (Conn Echo.alice_dials_bob)
         (Conn (snd (runHandshakeAsInitiator Echo.alice_dials_bob))) =
       [EvWrite env1 true; EvRead (frame1 Echo.alice_dials_bob) (Ok e2);
        EvVerifyEnvelope (PeerID e2) (Message e2) (Signature e2);
        EvWrite env3 ok].
Proof.
  assert (H : (2 <= length (written (since (Conn Echo.alice_dials_bob)
                  (Conn (snd (runHandshakeAsInitiator
                                Echo.alice_dials_bob))))))%nat)
    by (vm_compute; repeat constructor).
  split; [exact H|].
  exact (proj1 (proj2
    (act3_sent_only_after_act2_accepted Echo.alice_dials_bob)) H).
Defined.

Lemma successful_handshake_three_envelopes_witness :
  fst (runHandshakeAsInitiator Echo.alice_dials_bob) = Ok tt /\
  fst (runHandshakeAsResponder Echo.bob_listens) = Ok tt /\
  length
    (written (since (Conn Echo.alice_dials_bob)
                (Conn (snd (runHandshakeAsInitiator Echo.alice_dials_bob))))
     ++ written (since (Conn Echo.bob_listens)
                   (Conn (snd (runHandshakeAsResponder Echo.bob_listens)))))
    = 3%nat.
Proof.
  assert (Hi : fst (runHandshakeAsInitiator Echo.alice_dials_bob) = Ok tt)
    by reflexivity.
  assert (Hr : fst (runHandshakeAsResponder Echo.bob_listens) = Ok tt)
    by reflexivity.
  split; [exact Hi|]. split; [exact Hr|].
  exact (proj1 (proj2 (proj2
    (successful_handshake_three_envelopes Echo.alice_dials_bob
       Echo.bob_listens Hi Hr)))).
Defined.

Lemma outbound_rejects_unexpected_identity_witness :
  received
    (since Echo.carol_answers
       (snd (Echo.outbound Echo.carol_answers Echo.alice Echo.bob))) =
    [Echo.signed Echo.carol Echo.challenge] /\
  PeerID (Echo.signed Echo.carol Echo.challenge) <> Echo.bob /\
  fst (Echo.outbound Echo.carol_answers Echo.alice Echo.bob) =
    Err (handshake_failed (identity_mismatch Echo.bob Echo.carol)).
Proof.
  assert (Hrec : received
    (since Echo.carol_answers
       (snd (Echo.outbound Echo.carol_answers Echo.alice Echo.bob))) =
    [Echo.signed Echo.carol Echo.challenge]) by reflexivity.
  assert (Hne : PeerID (Echo.signed Echo.carol Echo.challenge) <> Echo.bob)
    by discriminate.
  split; [exact Hrec|]. split; [exact Hne|].
  exact (proj1
    (outbound_rejects_unexpected_identity Echo.carol_answers Echo.alice
       Echo.alice Hrec Hne)).
Defined.

Lemma responder_pins_once_and_rejects_change_witness :
  received
    (since Echo.alice_then_carol
       (snd (Echo.inbound Echo.alice_then_carol Echo.bob))) =
    [Echo.signed Echo.alice Echo.challenge;
     Echo.signed Echo.carol Echo.challenge] /\
  PeerID (Echo.signed Echo.carol Echo.challenge) <>
    PeerID (Echo.signed Echo.alice Echo.challenge) /\
  fst (Echo.inbound Echo.alice_then_carol Echo.bob) =
    Err (handshake_failed (identity_mismatch Echo.alice Echo.carol)).
Proof.
  assert (Hrec : received
    (since Echo.alice_then_carol
       (snd (Echo.inbound Echo.alice_then_carol Echo.bob))) =
    [Echo.signed Echo.alice Echo.challenge;
     Echo.signed Echo.carol Echo.challenge]) by reflexivity.
  assert (Hne : PeerID (Echo.signed Echo.carol Echo.challenge) <>
                PeerID (Echo.signed Echo.alice Echo.challenge))
    by discriminate.
  split; [exact Hrec|]. split; [exact Hne|].
  exact (proj2 (proj2 (proj2 (proj2
    (responder_pins_once_and_rejects_change Echo.alice_then_carol Echo.bob
       Echo.bob [])))) _ _ Hrec Hne).
Defined.

Lemma oversize_frame_aborts_witness :
  1025 > 1024 /\
  In (EvRead Echo.oversize (Err frame_oversize))
    (since Echo.too_long (snd (Echo.inbound Echo.too_long Echo.bob))) /\
  fst (Echo.inbound Echo.too_long Echo.bob) =
    Err (handshake_failed frame_oversize) /\
  since Echo.too_long (snd (Echo.inbound Echo.too_long Echo.bob)) =
    [EvRead Echo.oversize (Err frame_oversize); EvClose].
Proof.
  assert (Hn : 1025 > 1024) by reflexivity.
  assert (Hin : In (EvRead Echo.oversize (Err frame_oversize))
    (since Echo.too_long (snd (Echo.inbound Echo.too_long Echo.bob))))
    by (left; reflexivity).
  split; [exact Hn|]. split; [exact Hin|].
  split; [|reflexivity].
  exact (proj1 (proj2
    (oversize_frame_aborts Echo.too_long Echo.bob Echo.bob []
       (Some (Echo.signed Echo.alice Echo.challenge)) (Err frame_oversize)
       Hn (or_intror eq_refl) Hin))).
Defined.

Lemma responder_silent_until_act1_validated_witness :
  written (since (Conn Echo.bob_listens)
             (Conn (snd (runHandshakeAsResponder Echo.bob_listens)))) <> [] /\
  exists e1 m1,
    fst (responderReceiveAct1 (NewDelimitedReader maxFrameSize)
           Echo.bob_listens) = Ok m1
    /\ decode maxFrameSize (frame1 Echo.bob_listens) = Ok e1
    /\ verifyEnvelope (PeerID e1) (Message e1) (Signature e1) = true
    /\ Act1_Unmarshal (Message e1) = Some m1
    /\ before_first_write
         (since (Conn Echo.bob_listens)
            (Conn (snd (runHandshakeAsResponder Echo.bob_listens)))) =
       [EvRead (frame1 Echo.bob_listens) (Ok e1); EvPin (PeerID e1);
        EvVerifyEnvelope (PeerID e1) (Message e1) (Signature e1)].
Proof.
  assert (H : written (since (Conn Echo.bob_listens)
             (Conn (snd (runHandshakeAsResponder Echo.bob_listens)))) <> [])
    by discriminate.
  split; [exact H|].
  exact (proj2 (proj2
    (responder_silent_until_act1_validated Echo.bob_listens)) H).
Defined.

Lemma sent_envelopes_carry_local_identity_witness :
  Sign (localPeerPrivateKey Echo.bob_listens) Echo.challenge =
    Some (Echo.bob ++ Echo.challenge) /\
  since (Conn Echo.bob_listens)
    (Conn (snd (responderSendAct2 Echo.challenge NewDelimitedWriter
                  Echo.bob_listens))) =
    [EvWrite (Echo.signed Echo.bob Echo.challenge) true].
Proof.
  assert (H : Sign (localPeerPrivateKey Echo.bob_listens) Echo.challenge =
              Some (Echo.bob ++ Echo.challenge)) by reflexivity.
  split; [exact H|].
  exact (proj1 (proj2
    (sent_envelopes_carry_local_identity Echo.challenge NewDelimitedWriter
       Echo.bob_listens (or_intror (or_introl eq_refl)))) _ H).
Defined.

Lemma outbound_unclosed_on_malformed_identity_witness :
  ExtractPublicKey [] = None /\
  fst (Echo.outbound Echo.carol_answers Echo.alice []) =
    Err (outbound_creation_failed malformed_identity) /\
  snd (Echo.outbound Echo.carol_answers Echo.alice []) = Echo.carol_answers /\
  closes (since Echo.carol_answers
            (snd (Echo.outbound Echo.carol_answers Echo.alice []))) = 0%nat.
Proof.
  assert (H : ExtractPublicKey [] = None) by reflexivity.
  split; [exact H|].
  exact (outbound_unclosed_on_malformed_identity Echo.carol_answers
           Echo.alice Echo.alice [] H).
Defined.

Lemma constructors_close_exactly_on_failure_witness :
  Echo.inbound Echo.too_long Echo.bob =
    newAuthenticatedInboundConnection Echo.too_long Echo.bob Echo.bob [] /\
  closes (since Echo.too_long (snd (Echo.inbound Echo.too_long Echo.bob))) =
    1%nat.
Proof.
  split; [reflexivity|].
  exact (proj1
    (constructors_close_exactly_on_failure Echo.too_long Echo.bob Echo.bob []
       (or_introl eq_refl))).
Defined.

Lemma outbound_success_authenticates_witness :
  fst (Echo.outbound (Echo.fresh [Echo.from Echo.bob]) Echo.alice Echo.bob) =
    Ok Echo.alice_upgraded /\
  remotePeerID Echo.alice_upgraded = Echo.bob.
Proof.
  assert (H : fst (newAuthenticatedOutboundConnection
                     (Echo.fresh [Echo.from Echo.bob]) Echo.alice Echo.alice
                     Echo.bob) = Ok Echo.alice_upgraded) by reflexivity.
  split; [exact H|].
  exact (proj1 (proj2 (proj2 (outbound_success_authenticates _ _ _ _ H)))).
Defined.

Lemma inbound_success_authenticates_witness :
  fst (Echo.inbound (Echo.fresh [Echo.from Echo.alice; Echo.from Echo.alice])
         Echo.bob) = Ok Echo.bob_upgraded /\
  localPeerID Echo.bob_upgraded = Echo.bob.
Proof.
  assert (H : fst (newAuthenticatedInboundConnection
                     (Echo.fresh [Echo.from Echo.alice; Echo.from Echo.alice])
                     Echo.bob Echo.bob []) = Ok Echo.bob_upgraded)
    by reflexivity.
  split; [exact H|].
  exact (proj1 (inbound_success_authenticates _ _ _ _ H)).
Defined.

Lemma rejected_signature_aborts_witness :
  In (EvVerifyEnvelope Echo.bob Echo.challenge [])
    (since Echo.forger_answers
       (snd (Echo.outbound Echo.forger_answers Echo.alice Echo.bob))) /\
  verifyEnvelope Echo.bob Echo.challenge [] = false /\
  fst (Echo.outbound Echo.forger_answers Echo.alice Echo.bob) =
    Err (handshake_failed signature_invalid).
Proof.
  assert (Hin : In (EvVerifyEnvelope Echo.bob Echo.challenge [])
    (since Echo.forger_answers
       (snd (newAuthenticatedOutboundConnection Echo.forger_answers
               Echo.alice Echo.alice Echo.bob))))
    by (right; right; left; reflexivity).
  assert (Hbad : verifyEnvelope Echo.bob Echo.challenge [] = false)
    by reflexivity.
  split; [exact Hin|]. split; [exact Hbad|].
  exact (proj1
    (rejected_signature_aborts Echo.forger_answers Echo.alice Echo.alice
       Echo.bob Echo.bob Echo.challenge [] (or_introl eq_refl) Hin Hbad)).
Defined.

Lemma failed_io_aborts_witness :
  In (EvRead Echo.oversize (Err frame_oversize))
    (since Echo.too_long (snd (Echo.inbound Echo.too_long Echo.bob))) /\
  fst (Echo.inbound Echo.too_long Echo.bob) =
    Err (handshake_failed frame_oversize).
Proof.
  assert (Hin : In (EvRead Echo.oversize (Err frame_oversize))
    (since Echo.too_long
       (snd (newAuthenticatedInboundConnection Echo.too_long Echo.bob
               Echo.bob []))))
    by (left; reflexivity).
  split; [exact Hin|].
  exact (proj1 (proj1
    (failed_io_aborts Echo.too_long Echo.bob Echo.bob []
       (or_intror eq_refl)) _ _ Hin)).
Defined.




End EchoRuns.

(* ================================================================== *)
(** ** Properties of package pedersen *)

Module PedersenFacts.

Import Pedersen.

(* ------------------------------------------------------------------ *)
(** *** randomFromZn *)

Lemma crand_Int_positive (max : Z) (v : Z) (rest : list Z) :
  0 < max -> crand_Int max (v :: rest) = (Returns (v mod max), rest).
Proof.
  intro H. unfold crand_Int.
  destruct (max <=? 0) eqn:E; [apply Z.leb_le in E; lia | reflexivity].
Qed.

Lemma sgn_eqb_zero (x : Z) : (Z.sgn x =? 0) = (x =? 0).
Proof. destruct x; reflexivity. Qed.

Lemma randomFromZn_loop_panics (max : Z) (tape : list Z) :
  max <= 0 -> randomFromZn_loop max tape = (Panics, tape).
Proof.
  intro H. apply Z.leb_le in H.
  destruct tape as [|v rest]; cbn; unfold wrap, crand_Int; rewrite H;
    reflexivity.
Qed.

Lemma randomFromZn_loop_cases (max : Z) (tape : list Z) :
  0 < max ->
  (exists skipped v rest,
      tape = skipped ++ v :: rest
      /\ Forall (fun z => z mod max = 0) skipped
      /\ v mod max <> 0
      /\ randomFromZn_loop max tape = (Returns (v mod max), rest))
  \/ (Forall (fun z => z mod max = 0) tape
      /\ randomFromZn_loop max tape =
           (Fails (random_failed reader_failed), [])).
Proof.
  intro Hmax. induction tape as [|v rest IH].
  - right. split; [constructor|]. cbn. unfold wrap, crand_Int.
    destruct (max <=? 0) eqn:E; [apply Z.leb_le in E; lia | reflexivity].
  - cbn [randomFromZn_loop]. rewrite (crand_Int_positive v rest Hmax).
    rewrite sgn_eqb_zero. destruct (v mod max =? 0) eqn:E.
    + apply Z.eqb_eq in E.
      destruct IH as [(sk & w & rest' & -> & Hsk & Hw & Hrun) | [Hall Hrun]].
      * left. exists (v :: sk), w, rest'. repeat split; auto.
      * right. split; [constructor; assumption | exact Hrun].
    + apply Z.eqb_neq in E. left. exists [], v, rest.
      repeat split; auto.
Qed.


Lemma randomFromZn_loop_skips (max : Z) (skipped : list Z) (v : Z)
    (rest : list Z) :
  0 < max ->
  Forall (fun z => z mod max = 0) skipped ->
  v mod max <> 0 ->
  randomFromZn_loop max (skipped ++ v :: rest) = (Returns (v mod max), rest).
Proof.
  intros Hpos Hsk Hv.
  induction skipped as [|z sk IH]; cbn [app randomFromZn_loop].
  - rewrite (crand_Int_positive v rest Hpos), sgn_eqb_zero.
    apply Z.eqb_neq in Hv. rewrite Hv. reflexivity.
  - inversion Hsk as [|? ? Hz Hsk']; subst.
    rewrite (crand_Int_positive z _ Hpos), sgn_eqb_zero, Hz. cbn.
    apply IH. exact Hsk'.
Qed.

Lemma randomFromZn_returns_inv (n x : Z) (tape rest : list Z) :
  randomFromZn n tape = (Returns x, rest) ->
  1 <= x <= n - 2
  /\ exists skipped v,
       tape = skipped ++ v :: rest
       /\ Forall (fun z => z mod (n - 1) = 0) skipped
       /\ x = v mod (n - 1).
Proof.
  unfold randomFromZn. intro Hrun.
  destruct (Z_lt_le_dec 0 (n - 1)) as [Hpos | Hneg].
  - destruct (randomFromZn_loop_cases tape Hpos)
      as [(sk & v & rest' & -> & Hsk & Hv & Hrun') | [_ Hrun']];
      rewrite Hrun' in Hrun; [|discriminate].
    inversion Hrun. subst.
    pose proof (Z.mod_pos_bound v (n - 1) Hpos).
    split; [lia|]. exists sk, v. auto.
  - rewrite (randomFromZn_loop_panics tape Hneg) in Hrun. discriminate.
Qed.

(** X11.  A value [randomFromZn n] returns lies between 1 and [n - 2]: it
    is the first draw that is not zero modulo [n - 1], taken modulo [n - 1],
    and the draws before it, all zero modulo [n - 1], are used up with
    it. *)
Theorem randomFromZn_returns_between (n x : Z) (tape rest : list Z) :
  randomFromZn n tape = (Returns x, rest) ->
  1 <= x <= n - 2
  /\ exists skipped v,
       tape = skipped ++ v :: rest
       /\ Forall (fun z => z mod (n - 1) = 0) skipped
       /\ x = v mod (n - 1).
Proof.
  unfold randomFromZn. intro Hrun.
  destruct (Z_lt_le_dec 0 (n - 1)) as [Hpos | Hneg].
  - destruct (randomFromZn_loop_cases tape Hpos)
      as [(sk & v & rest' & -> & Hsk & Hv & Hrun') | [_ Hrun']];
      rewrite Hrun' in Hrun; [|discriminate].
    inversion Hrun. subst.
    pose proof (Z.mod_pos_bound v (n - 1) Hpos).
    split; [lia|]. exists sk, v. auto.
  - rewrite (randomFromZn_loop_panics tape Hneg) in Hrun. discriminate.
Qed.


(* ------------------------------------------------------------------ *)
(** *** CalculateCommitment *)

Lemma big_Exp_modular (x y m : Z) :
  m <> 0 -> 0 <= y ->
  big_Exp x y (Some m) = Returns ((x ^ y) mod Z.abs m).
Proof.
  intros Hm Hy. unfold big_Exp.
  destruct (y <? 0) eqn:E; [apply Z.ltb_lt in E; lia|].
  destruct m; [contradiction | reflexivity | reflexivity].
Qed.

Lemma big_Mod_nonzero (x m : Z) :
  m <> 0 -> big_Mod x m = Returns (x mod Z.abs m).
Proof.
  intro Hm. unfold big_Mod. apply Z.eqb_neq in Hm. rewrite Hm. reflexivity.
Qed.

Lemma CalculateCommitment_run (v : VSS) (digest r : Z) :
  p v <> 0 -> 0 <= digest -> 0 <= r ->
  CalculateCommitment v digest r =
    Returns ((g v ^ digest * h v ^ r) mod Z.abs (p v)).
Proof.
  intros Hp Hd Hr. unfold CalculateCommitment.
  rewrite (big_Exp_modular _ Hp Hd), (big_Exp_modular _ Hp Hr).
  cbn [and_then]. rewrite (big_Mod_nonzero _ Hp).
  rewrite <- Zmult_mod. reflexivity.
Qed.

Lemma CalculateCommitment_returns_inv (v : VSS) (digest r c : Z) :
  CalculateCommitment v digest r = Returns c ->
  p v <> 0 /\ 0 <= c < Z.abs (p v).
Proof.
  unfold CalculateCommitment. intro H.
  destruct (Z.eq_dec (p v) 0) as [E | E].
  - exfalso. rewrite E in H. cbn in H. discriminate.
  - split; [exact E|].
    destruct (big_Exp (g v) digest (Some (p v))); try discriminate.
    destruct (big_Exp (h v) r (Some (p v))); try discriminate.
    cbn [and_then] in H. rewrite (big_Mod_nonzero _ E) in H.
    inversion H. apply Z.mod_pos_bound. lia.
Qed.

(** X8.  [CalculateCommitment] panics when the modulus [p] is zero.  For a
    modulus that is not zero and exponents that are not negative it returns
    [(g ^ digest * h ^ r) mod |p|], a value from 0 up to [|p| - 1]. *)
Theorem CalculateCommitment_value (v : VSS) (digest r : Z) :
  (p v = 0 -> CalculateCommitment v digest r = Panics)
  /\ (p v <> 0 -> 0 <= digest -> 0 <= r ->
      CalculateCommitment v digest r =
        Returns ((g v ^ digest * h v ^ r) mod Z.abs (p v))
      /\ 0 <= (g v ^ digest * h v ^ r) mod Z.abs (p v) < Z.abs (p v)).
Proof.
  split.
  - intro E. unfold CalculateCommitment. rewrite E. reflexivity.
  - intros Hp Hd Hr. split; [now apply CalculateCommitment_run|].
    apply Z.mod_pos_bound. lia.
Qed.

(** X9.  Commitments multiply: under a modulus that is not zero and with
    exponents that are not negative, the commitment to [d1 + d2] under the
    key [r1 + r2] is the product, modulo [|p|], of the commitment to [d1]
    under [r1] and the commitment to [d2] under [r2]. *)
Theorem CalculateCommitment_homomorphic (v : VSS) (d1 r1 d2 r2 : Z) :
  p v <> 0 -> 0 <= d1 -> 0 <= r1 -> 0 <= d2 -> 0 <= r2 ->
  exists c1 c2,
    CalculateCommitment v d1 r1 = Returns c1
    /\ CalculateCommitment v d2 r2 = Returns c2
    /\ CalculateCommitment v (d1 + d2) (r1 + r2) =
         Returns ((c1 * c2) mod Z.abs (p v)).
Proof.
  intros Hp H1 H2 H3 H4. do 2 eexists.
  split; [apply CalculateCommitment_run; assumption|].
  split; [apply CalculateCommitment_run; assumption|].
  rewrite CalculateCommitment_run by lia.
  rewrite <- Zmult_mod. f_equal. f_equal.
  rewrite !Z.pow_add_r by assumption. ring.
Qed.

Section WithPrimitives.
Context {prim : Primitives}.

(* ------------------------------------------------------------------ *)
(** *** NewVSS *)

(** What [NewVSS] does once both primality tests have passed. *)
Lemma NewVSS_run (p0 q0 : Z) (tape : list Z) :
  ProbablyPrime p0 20 = true -> ProbablyPrime q0 20 = true -> q0 <> 0 ->
  NewVSS p0 q0 tape =
    if (p0 - 1) mod (q0 * q0) =? 0 then (Fails incorrect_p_q, tape)
    else
      match randomFromZn p0 tape with
      | (Returns randomG, tape1) =>
          match randomFromZn p0 tape1 with
          | (Returns randomValue, tape2) =>
              match big_Exp randomValue (Z.sgn q0 * ((p0 - 1) / Z.abs q0))
                      (Some p0) with
              | Returns h0 =>
                  (Returns {| p := p0; q := q0;
                              g := randomG * randomG; h := h0 |}, tape2)
              | Fails e => (Fails e, tape2)
              | Panics => (Panics, tape2)
              | Unspecified => (Unspecified, tape2)
              end
          | (Fails e, tape2) =>
              (Fails (randomValue_generation_failed e), tape2)
          | (Panics, tape2) => (Panics, tape2)
          | (Unspecified, tape2) => (Unspecified, tape2)
          end
      | (Fails e, tape1) => (Fails (g_generation_failed e), tape1)
      | (Panics, tape1) => (Panics, tape1)
      | (Unspecified, tape1) => (Unspecified, tape1)
      end.
Proof.
  intros Hp Hq Hq0. unfold NewVSS. rewrite Hp, Hq. cbn [negb orb].
  unfold bind at 1. unfold lift at 1. cbn [big_Exp Z.leb Z.compare].
  unfold bind at 1. unfold lift at 1.
  assert (Hsq : q0 ^ 2 = q0 * q0) by ring.
  assert (Hnz : q0 * q0 <> 0) by nia.
  rewrite Hsq, (big_Mod_nonzero _ Hnz).
  replace (Z.abs (q0 * q0)) with (q0 * q0) by nia.
  destruct ((p0 - 1) mod (q0 * q0) =? 0); [reflexivity|].
  unfold bind at 1. unfold wrap at 1.
  destruct (randomFromZn p0 tape) as [[rg|e| |] tape1]; try reflexivity.
  unfold bind at 1. unfold lift at 1. cbn [big_Exp Z.leb Z.compare].
  unfold bind at 1. unfold wrap at 1.
  destruct (randomFromZn p0 tape1) as [[rv|e| |] tape2]; try reflexivity.
  unfold bind at 1. unfold lift at 1. unfold big_Div.
  apply Z.eqb_neq in Hq0. rewrite Hq0.
  unfold bind at 1. unfold lift at 1.
  replace (rg ^ 2) with (rg * rg) by ring.
  destruct (big_Exp rv (Z.sgn q0 * ((p0 - 1) / Z.abs q0)) (Some p0));
    reflexivity.
Qed.

(** X13.  [NewVSS] returns "p and q have to be primes" as soon as one of
    the two primality tests fails.  When both pass (and [q] is not zero) it
    returns "incorrect p and q values" exactly when [q * q] divides [p - 1].
    Neither rejection reads the random source. *)
Theorem NewVSS_rejections (p0 q0 : Z) (tape : list Z) :
  (ProbablyPrime p0 20 = false \/ ProbablyPrime q0 20 = false ->
   NewVSS p0 q0 tape = (Fails not_primes, tape))
  /\ (ProbablyPrime p0 20 = true -> ProbablyPrime q0 20 = true -> q0 <> 0 ->
      ((p0 - 1) mod (q0 * q0) = 0 <->
       fst (NewVSS p0 q0 tape) = Fails incorrect_p_q)
      /\ ((p0 - 1) mod (q0 * q0) = 0 ->
          NewVSS p0 q0 tape = (Fails incorrect_p_q, tape))).
Proof.
  split.
  - intros [H | H]; unfold NewVSS; rewrite H; cbn [negb orb];
      [reflexivity|]. rewrite orb_true_r. reflexivity.
  - intros Hp Hq Hq0. rewrite NewVSS_run by assumption.
    destruct ((p0 - 1) mod (q0 * q0) =? 0) eqn:E.
    + apply Z.eqb_eq in E. split; [split|]; auto.
    + apply Z.eqb_neq in E. split; [split|]; try contradiction.
      destruct (randomFromZn p0 tape) as [[rg|e| |] tape1];
        try discriminate.
      destruct (randomFromZn p0 tape1) as [[rv|e| |] tape2];
        try discriminate.
      destruct (big_Exp rv _ (Some p0)) eqn:Eh; try discriminate.
      unfold big_Exp in Eh.
      destruct p0; try discriminate;
        destruct (_ <? 0); discriminate.
Qed.

Lemma NewVSS_returns_inv (p0 q0 : Z) (tape rest : list Z) (v : VSS) :
  (forall x, ProbablyPrime x 20 = true -> 2 <= x) ->
  NewVSS p0 q0 tape = (Returns v, rest) ->
  ProbablyPrime p0 20 = true /\ ProbablyPrime q0 20 = true
  /\ 3 <= p0 /\ 2 <= q0
  /\ (p0 - 1) mod (q0 * q0) <> 0
  /\ exists randomG randomValue tape1,
       randomFromZn p0 tape = (Returns randomG, tape1)
       /\ randomFromZn p0 tape1 = (Returns randomValue, rest)
       /\ 1 <= randomG <= p0 - 2 /\ 1 <= randomValue <= p0 - 2
       /\ v = {| p := p0; q := q0; g := randomG * randomG;
                 h := (randomValue ^ ((p0 - 1) / q0)) mod p0 |}.
Proof.
  intros Hsound Hrun.
  destruct (ProbablyPrime p0 20) eqn:Hp.
  2:{ unfold NewVSS in Hrun. rewrite Hp in Hrun. discriminate. }
  destruct (ProbablyPrime q0 20) eqn:Hq.
  2:{ unfold NewVSS in Hrun. rewrite Hp, Hq in Hrun. discriminate. }
  pose proof (Hsound _ Hp) as Hp2. pose proof (Hsound _ Hq) as Hq2.
  rewrite NewVSS_run in Hrun by (assumption || lia).
  destruct ((p0 - 1) mod (q0 * q0) =? 0) eqn:E; [discriminate|].
  apply Z.eqb_neq in E.
  destruct (randomFromZn p0 tape) as [[rg|e| |] tape1] eqn:E1;
    try discriminate.
  destruct (randomFromZn p0 tape1) as [[rv|e| |] tape2] eqn:E2;
    try discriminate.
  destruct (randomFromZn_returns_inv _ _ E1) as [Hrg _].
  destruct (randomFromZn_returns_inv _ _ E2) as [Hrv _].
  replace (Z.sgn q0) with 1 in Hrun by lia.
  replace (Z.abs q0) with q0 in Hrun by lia.
  rewrite Z.mul_1_l in Hrun.
  assert (Hk : 0 <= (p0 - 1) / q0) by (apply Z.div_pos; lia).
  rewrite big_Exp_modular in Hrun by lia.
  replace (Z.abs p0) with p0 in Hrun by lia.
  inversion Hrun. subst.
  repeat split; try lia. exists rg, rv, tape1. repeat split; lia || auto.
Qed.

(** X14.  With a primality test that accepts no number below 2, the
    parameters [NewVSS p q] returns carry [p] and [q] themselves, with
    [p >= 3], [q >= 2] and [q * q] not dividing [p - 1]; [g] is the square of a
    draw between 1 and [p - 2], not reduced modulo [p]; [h] is a draw between
    1 and [p - 2] raised to [(p - 1) / q] modulo [p], from 0 up to [p - 1]; at
    least two draws have been used. *)
Theorem NewVSS_parameters (p0 q0 : Z) (tape rest : list Z) (v : VSS) :
  (forall x, ProbablyPrime x 20 = true -> 2 <= x) ->
  NewVSS p0 q0 tape = (Returns v, rest) ->
  p v = p0 /\ q v = q0
  /\ ProbablyPrime p0 20 = true /\ ProbablyPrime q0 20 = true
  /\ 3 <= p0 /\ 2 <= q0 /\ (p0 - 1) mod (q0 * q0) <> 0
  /\ (exists randomG, 1 <= randomG <= p0 - 2 /\ g v = randomG * randomG)
  /\ 1 <= g v <= (p0 - 2) * (p0 - 2)
  /\ (exists randomValue, 1 <= randomValue <= p0 - 2 /\
        h v = (randomValue ^ ((p0 - 1) / q0)) mod p0)
  /\ 0 <= h v < p0
  /\ (length rest + 2 <= length tape)%nat.
Proof.
  intros Hsound Hrun.
  destruct (@NewVSS_returns_inv _ _ _ _ _ Hsound Hrun)
    as (Hp & Hq & Hp3 & Hq2 & Hmod & rg & rv & tape1 & E1 & E2 & Hrg & Hrv
        & ->).
  cbn [p q g h].
  repeat (split; [first [reflexivity | assumption | lia]|]).
  split; [exists rg; split; [lia | reflexivity]|].
  split; [nia|].
  split; [exists rv; split; [lia | reflexivity]|].
  split; [apply Z.mod_pos_bound; lia|].
  destruct (randomFromZn_returns_inv _ _ E1) as (_ & sk1 & v1 & -> & _).
  destruct (randomFromZn_returns_inv _ _ E2) as (_ & sk2 & v2 & -> & _).
  rewrite !length_app. cbn [length]. rewrite !length_app. cbn [length]. lia.
Qed.

(** X15.  For [p = 2 * q + 1] with [q >= 3], both accepted by the primality
    test, the check on [q * q] never rejects, and [NewVSS] returns, from the
    first two draws [a], [b] that are not zero modulo [2 * q]: [g] the square
    of [a mod 2q] and [h] the square of [b mod 2q] modulo [p]. *)
Theorem NewVSS_safe_prime (q0 : Z) (skipped1 skipped2 : list Z) (a b : Z)
    (rest : list Z) :
  3 <= q0 ->
  ProbablyPrime (2 * q0 + 1) 20 = true -> ProbablyPrime q0 20 = true ->
  Forall (fun z => z mod (2 * q0) = 0) skipped1 -> a mod (2 * q0) <> 0 ->
  Forall (fun z => z mod (2 * q0) = 0) skipped2 -> b mod (2 * q0) <> 0 ->
  NewVSS (2 * q0 + 1) q0 (skipped1 ++ a :: skipped2 ++ b :: rest) =
    (Returns {| p := 2 * q0 + 1; q := q0;
                g := (a mod (2 * q0)) * (a mod (2 * q0));
                h := ((b mod (2 * q0)) ^ 2) mod (2 * q0 + 1) |}, rest).
Proof.
  intros Hq3 Hp Hq Hs1 Ha Hs2 Hb.
  rewrite NewVSS_run by (assumption || lia).
  replace (2 * q0 + 1 - 1) with (2 * q0) by lia.
  assert (Hmod : (2 * q0) mod (q0 * q0) = 2 * q0)
    by (apply Z.mod_small; nia).
  rewrite Hmod.
  assert (E : (2 * q0 =? 0) = false) by (apply Z.eqb_neq; lia).
  rewrite E. unfold randomFromZn.
  replace (2 * q0 + 1 - 1) with (2 * q0) by lia.
  rewrite randomFromZn_loop_skips by (assumption || lia).
  rewrite randomFromZn_loop_skips by (assumption || lia).
  replace (Z.sgn q0) with 1 by lia.
  replace (Z.abs q0) with q0 by lia.
  replace (1 * (2 * q0 / q0)) with 2
    by (rewrite Z.mul_1_l, Z.div_mul; lia).
  rewrite big_Exp_modular by lia.
  replace (Z.abs (2 * q0 + 1)) with (2 * q0 + 1) by lia.
  reflexivity.
Qed.

(* ------------------------------------------------------------------ *)
(** *** CommitmentTo and Verify *)

Lemma CommitmentTo_returns_inv (v : VSS) (secret : bytes)
    (tape rest : list Z) (c : Commitment) (key : DecommitmentKey) :
  CommitmentTo v secret tape = (Returns (c, key), rest) ->
  randomFromZn (q v) tape = (Returns (t key), rest)
  /\ vss c = v
  /\ exists digest,
       calculateDigest secret (q v) = Returns digest
       /\ CalculateCommitment v digest (t key) = Returns (commitment c).
Proof.
  unfold CommitmentTo. unfold bind at 1. unfold wrap at 1.
  destruct (randomFromZn (q v) tape) as [[r|e| |] tape1];
    try discriminate.
  unfold bind at 1. unfold lift at 1.
  destruct (calculateDigest secret (q v)) as [digest|e| |];
    try discriminate.
  unfold bind at 1. unfold lift at 1.
  destruct (CalculateCommitment v digest r) as [cm|e| |] eqn:Ecm;
    try discriminate.
  unfold ret. intro H. inversion H. subst. cbn [t vss commitment].
  split; [reflexivity|]. split; [reflexivity|].
  exists digest. auto.
Qed.

(** X10.  A commitment and a decommitment key returned by [CommitmentTo]
    for a secret pass [Verify] for that secret.  The commitment belongs to
    the parameters it was made with, the key lies between 1 and [q - 2], and
    the committed value is [(g ^ (Sha256Sum secret mod q) * h ^ t) mod |p|],
    from 0 up to [|p| - 1]. *)
Theorem CommitmentTo_then_Verify (v : VSS) (secret : bytes)
    (tape rest : list Z) (c : Commitment) (key : DecommitmentKey) :
  CommitmentTo v secret tape = (Returns (c, key), rest) ->
  Verify c key secret = Returns true
  /\ vss c = v
  /\ 1 <= t key <= q v - 2
  /\ 0 <= commitment c < Z.abs (p v)
  /\ commitment c =
       (g v ^ (Sha256Sum secret mod q v) * h v ^ t key) mod Z.abs (p v).
Proof.
  intro Hrun.
  apply CommitmentTo_returns_inv in Hrun.
  destruct Hrun as (Hr & Hv & digest & Hd & Hc).
  destruct (randomFromZn_returns_inv _ _ Hr) as [Ht _].
  pose proof Hc as Hc'. apply CalculateCommitment_returns_inv in Hc'.
  destruct Hc' as [Hp Hrange].
  split.
  - unfold Verify. rewrite Hv, Hd. cbn [and_then]. rewrite Hc.
    cbn [and_then]. rewrite Z.eqb_refl. reflexivity.
  - split; [exact Hv|]. split; [exact Ht|]. split; [exact Hrange|].
    unfold calculateDigest in Hd. rewrite big_Mod_nonzero in Hd by lia.
    inversion Hd as [Hdig].
    replace (Z.abs (q v)) with (q v) in * by lia.
    rewrite CalculateCommitment_run in Hc; [| exact Hp | | lia].
    + inversion Hc. subst digest. reflexivity.
    + subst digest. apply Z.mod_pos_bound. lia.
Qed.


Lemma prime_divides_power (p0 a n : Z) :
  Z.prime p0 -> 0 <= n -> (p0 | a ^ n) -> (p0 | a).
Proof.
  intros Hp Hn. revert n Hn.
  apply (natlike_ind (fun n => (p0 | a ^ n) -> (p0 | a))).
  - rewrite Z.pow_0_r. intro H. exfalso.
    apply Z.prime_ge_2 in Hp. apply Z.divide_1_r_nonneg in H; lia.
  - intros n Hn IH H. rewrite Z.pow_succ_r in H by assumption.
    apply (Z.divide_prime_mul _ _ _ Hp) in H. destruct H; auto.
Qed.

Lemma not_divides_between (p0 a : Z) : 1 <= a < p0 -> ~ (p0 | a).
Proof.
  intros Ha Hd. apply Z.divide_pos_le in Hd; lia.
Qed.

(** X17.  Under parameters returned by [NewVSS p q], when [p] is indeed a
    prime and the primality test accepts no number below 2, a commitment
    with exponents that are not negative is never zero: it lies between 1
    and [p - 1]. *)
Theorem commitment_never_zero (p0 q0 : Z) (tape rest : list Z) (v : VSS)
    (digest r : Z) :
  (forall x, ProbablyPrime x 20 = true -> 2 <= x) ->
  NewVSS p0 q0 tape = (Returns v, rest) ->
  Z.prime p0 -> 0 <= digest -> 0 <= r ->
  exists c, CalculateCommitment v digest r = Returns c /\ 1 <= c <= p0 - 1.
Proof.
  intros Hsound Hrun Hprime Hd Hr.
  destruct (@NewVSS_returns_inv _ _ _ _ _ Hsound Hrun)
    as (_ & _ & Hp3 & Hq2 & _ & rg & rv & _ & _ & _ & Hrg & Hrv & ->).
  rewrite CalculateCommitment_run by (cbn [p]; lia || assumption).
  cbn [p g h]. replace (Z.abs p0) with p0 by lia.
  eexists. split; [reflexivity|].
  pose proof (Z.mod_pos_bound
                ((rg * rg) ^ digest * (rv ^ ((p0 - 1) / q0) mod p0) ^ r)
                p0 ltac:(lia)) as Hb.
  assert (Hnz : ((rg * rg) ^ digest * (rv ^ ((p0 - 1) / q0) mod p0) ^ r)
                  mod p0 <> 0); [|lia].
  intro Hz. apply Z.mod_divide in Hz; [|lia].
  apply (Z.divide_prime_mul _ _ _ Hprime) in Hz. destruct Hz as [Hg | Hh].
  - apply prime_divides_power in Hg; [|assumption|assumption].
    apply (Z.divide_prime_mul _ _ _ Hprime) in Hg. destruct Hg as [H | H];
      apply (not_divides_between (a:=rg) (p0:=p0)); auto; lia.
  - apply prime_divides_power in Hh; [|assumption|assumption].
    apply (not_divides_between (a:=rv) (p0:=p0)); [lia|].
    apply prime_divides_power with (n := (p0 - 1) / q0);
      [assumption | apply Z.div_pos; lia |].
    apply Z.mod_divide; [lia|]. rewrite <- Zmod_mod.
    apply Z.mod_divide in Hh; [|lia]. rewrite Hh. reflexivity.
Qed.

End WithPrimitives.

(* ------------------------------------------------------------------ *)
(** *** Runs on the small instance *)

Lemma trial_division_at_least_2 (x : Z) :
  @ProbablyPrime small x 20 = true -> 2 <= x.
Proof.
  cbn. unfold trial_division. intro H.
  apply andb_true_iff in H. destruct H as [H _]. now apply Z.leb_le.
Qed.

Lemma prime_7 : Z.prime 7.
Proof.
  split; [lia|]. intros n Hn [k Hk].
  assert (Hc : n = 2 \/ n = 3 \/ n = 4 \/ n = 5 \/ n = 6) by lia.
  destruct Hc as [-> | [-> | [-> | [-> | ->]]]]; lia.
Qed.

Lemma CalculateCommitment_value_witness :
  p seven <> 0 /\ 0 <= 2 /\ 0 <= 3 /\
  CalculateCommitment seven 2 3 = Returns 2.
Proof.
  assert (Hp : p seven <> 0) by discriminate.
  assert (Hd : 0 <= 2) by discriminate.
  assert (Hr : 0 <= 3) by discriminate.
  split; [exact Hp|]. split; [exact Hd|]. split; [exact Hr|].
  exact (proj1 (proj2 (CalculateCommitment_value seven 2 3) Hp Hd Hr)).
Defined.

Lemma CalculateCommitment_homomorphic_witness :
  p seven <> 0 /\
  exists c1 c2,
    CalculateCommitment seven 1 2 = Returns c1
    /\ CalculateCommitment seven 2 1 = Returns c2
    /\ CalculateCommitment seven (1 + 2) (2 + 1) =
         Returns ((c1 * c2) mod Z.abs (p seven)).
Proof.
  assert (Hp : p seven <> 0) by discriminate.
  split; [exact Hp|].
  apply (@CalculateCommitment_homomorphic seven 1 2 2 1 Hp);
    discriminate.
Defined.

Lemma CommitmentTo_then_Verify_witness :
  @CommitmentTo small seven [x07] [5] =
    (Returns ({| vss := seven; commitment := 1 |}, {| t := 1 |}), []) /\
  @Verify small {| vss := seven; commitment := 1 |} {| t := 1 |} [x07] =
    Returns true.
Proof.
  assert (H : @CommitmentTo small seven [x07] [5] =
    (Returns ({| vss := seven; commitment := 1 |}, {| t := 1 |}), []))
    by reflexivity.
  split; [exact H|].
  exact (proj1 (@CommitmentTo_then_Verify small seven [x07] [5] _ _ _ H)).
Defined.

Lemma randomFromZn_returns_between_witness :
  randomFromZn 7 [0; 6; 12; 10; 3] = (Returns 4, [3]) /\ 1 <= 4 <= 7 - 2.
Proof.
  assert (H : randomFromZn 7 [0; 6; 12; 10; 3] = (Returns 4, [3]))
    by reflexivity.
  split; [exact H|].
  exact (proj1 (@randomFromZn_returns_between 7 _ [0; 6; 12; 10; 3] _ H)).
Defined.


Lemma NewVSS_rejections_witness :
  @ProbablyPrime small 5 20 = true /\ @ProbablyPrime small 2 20 = true /\
  2 <> 0 /\ (5 - 1) mod (2 * 2) = 0 /\
  @NewVSS small 5 2 [5; 7] = (Fails incorrect_p_q, [5; 7]).
Proof.
  assert (Hp : @ProbablyPrime small 5 20 = true) by reflexivity.
  assert (Hq : @ProbablyPrime small 2 20 = true) by reflexivity.
  assert (Hq0 : 2 <> 0) by discriminate.
  assert (Hm : (5 - 1) mod (2 * 2) = 0) by reflexivity.
  split; [exact Hp|]. split; [exact Hq|]. split; [exact Hq0|].
  split; [exact Hm|].
  exact (proj2 (proj2 (@NewVSS_rejections small 5 2 [5; 7]) Hp Hq Hq0) Hm).
Defined.

Lemma NewVSS_parameters_witness :
  @NewVSS small 7 3 [5; 4] = (Returns seven, []) /\
  p seven = 7 /\ q seven = 3.
Proof.
  assert (H : @NewVSS small 7 3 [5; 4] = (Returns seven, []))
    by reflexivity.
  split; [exact H|].
  destruct (@NewVSS_parameters small 7 3 [5; 4] [] seven
              trial_division_at_least_2 H) as (Hp & Hq & _).
  split; [exact Hp | exact Hq].
Defined.

Lemma NewVSS_safe_prime_witness :
  3 <= 3 /\
  @NewVSS small (2 * 3 + 1) 3 ([0] ++ 5 :: [12] ++ 4 :: []) =
    (Returns {| p := 2 * 3 + 1; q := 3;
                g := (5 mod (2 * 3)) * (5 mod (2 * 3));
                h := ((4 mod (2 * 3)) ^ 2) mod (2 * 3 + 1) |}, []).
Proof.
  assert (H3 : 3 <= 3) by discriminate.
  split; [exact H3|].
  apply (@NewVSS_safe_prime small 3 [0] [12] 5 4 [] H3);
    try reflexivity; try discriminate;
    repeat constructor.
Defined.


Lemma commitment_never_zero_witness :
  @NewVSS small 7 3 [5; 4] = (Returns seven, []) /\
  Z.prime 7 /\
  exists c, CalculateCommitment seven 2 3 = Returns c /\ 1 <= c <= 7 - 1.
Proof.
  assert (H : @NewVSS small 7 3 [5; 4] = (Returns seven, []))
    by reflexivity.
  split; [exact H|]. split; [exact prime_7|].
  apply (@commitment_never_zero small 7 3 [5; 4] [] seven 2 3
           trial_division_at_least_2 H prime_7); discriminate.
Defined.

End PedersenFacts.
